(** * topspots: region decomposition and hydration (backend/server.py)

    A shallow embedding of the search pipeline of [backend/server.py]:
    the covering circle of a bounding box, the quadrant split, the two
    area-insights adapters, the worklist loop that collects place names,
    and the hydration stage.

    Modelling conventions.
    - Python floats are read as real numbers: coordinates and radii are
      [R], and rounding, overflow and NaN are not modelled.
    - Python exceptions are values of [exn]; a call that can raise returns
      a [result].
    - The remote services are a function from the requests sent so far and
      the current request to what the transport delivers, so that a reply
      may depend on the whole history of the exchange.
    - A [while] loop that need not terminate takes a bound on its number
      of iterations. *)

From Stdlib Require Import Reals Lra ZArith QArith List String Ascii.
From stdpp Require Import gmap strings list sorting.

Local Open Scope R_scope.

(** ** Bounding boxes *)

(** The dict [{"top": .., "bottom": .., "left": .., "right": ..}]. *)
Record bbox : Type := mk_bbox {
  top : R;
  bottom : R;
  left : R;
  right : R
}.

(** The region invariant of the data model: north ≥ south, east ≥ west. *)
Definition well_formed (b : bbox) : Prop :=
  bottom b <= top b /\ left b <= right b.

Module Geometry.

(** [math.radians]. *)
Definition radians (deg : R) : R := deg * PI / 180.

(** [bbox_center_radius_m]: the centre of the box and the radius, in
    metres, of a circle around it. *)
Definition bbox_center_radius_m (b : bbox) : R * R * R :=
  let lat_c := (top b + bottom b) / 2 in
  let lng_c := (left b + right b) / 2 in
  let lat_delta := (top b - bottom b) / 2 in
  let lng_delta := (right b - left b) / 2 in
  let m_per_deg_lat := 111320 in
  let m_per_deg_lng := 111320 * cos (radians lat_c) in
  let r_m := sqrt ((lat_delta * m_per_deg_lat) ^ 2 + (lng_delta * m_per_deg_lng) ^ 2) in
  (lat_c, lng_c, Rmax r_m 50).

(** [split_bbox]: the four quadrants, in the order NW, NE, SW, SE. *)
Definition split_bbox (b : bbox) : list bbox :=
  let mid_lat := (top b + bottom b) / 2 in
  let mid_lng := (left b + right b) / 2 in
  [ mk_bbox (top b) mid_lat (left b) mid_lng;
    mk_bbox (top b) mid_lat mid_lng (right b);
    mk_bbox mid_lat (bottom b) (left b) mid_lng;
    mk_bbox mid_lat (bottom b) mid_lng (right b) ].

(** *** Vocabulary for the statements about boxes *)

(** A point, as (latitude, longitude). *)
Definition point : Type := R * R.

(** The closed rectangle of a box, and its open interior. *)
Definition covers (b : bbox) (p : point) : Prop :=
  bottom b <= fst p <= top b /\ left b <= snd p <= right b.


(** One box lies within another. *)
Definition within (c b : bbox) : Prop :=
  bottom b <= bottom c /\ top c <= top b /\ left b <= left c /\ right c <= right b.



(** The two midpoint lines of a box. *)
Definition mid_lat (b : bbox) : R := (top b + bottom b) / 2.
Definition mid_lng (b : bbox) : R := (left b + right b) / 2.


(** Distance in metres between two points under the equirectangular
    approximation taken at latitude [lat0]: a degree of latitude is
    111320 m and a degree of longitude is that scaled by [cos lat0]. *)
Definition equirect_dist (lat0 : R) (p q : point) : R :=
  sqrt (((fst p - fst q) * 111320) ^ 2
        + ((snd p - snd q) * (111320 * cos (radians lat0))) ^ 2).

(** The half-diagonal of a box as the spec words it: half the distance
    between two opposite corners, measured at the centre latitude. *)
Definition half_diagonal (b : bbox) : R :=
  equirect_dist (mid_lat b) (top b, right b) (bottom b, left b) / 2.

End Geometry.

Import Geometry.

(** ** Exceptions *)

(** The exception classes the pipeline can meet. Only [HTTPError] is ever
    caught by the code. *)
Inductive exn : Type :=
  | HTTPError        (* requests.HTTPError, from raise_for_status *)
  | RequestFailure   (* requests.ConnectionError, requests.Timeout, ... *)
  | JSONDecodeError  (* resp.json() on a body that is not JSON *)
  | ValueError
  | TypeError
  | KeyError
  | IndexError.

Inductive result (A : Type) : Type :=
  | Return (a : A)
  | Raise (e : exn).
Arguments Return {A} a.
Arguments Raise {A} e.

#[global] Instance result_ret : MRet result := fun A a => Return a.
#[global] Instance result_bind : MBind result := fun A B f m =>
  match m with
  | Return a => f a
  | Raise e => Raise e
  end.

(** ** HTTP *)

(** What [requests.get] / [requests.post] delivers: a response with its
    status code and its body decoded as a [B] (no decoding when the body
    is not JSON), or no response at all. *)
Inductive delivery (B : Type) : Type :=
  | Response (status_code : Z) (json_body : option B)
  | NoResponse.
Arguments Response {B} status_code json_body.
Arguments NoResponse {B}.

Module Http.

Definition request {B : Type} (d : delivery B) : result (Z * option B) :=
  match d with
  | Response status_code json_body => Return (status_code, json_body)
  | NoResponse => Raise RequestFailure
  end.

(** [resp.raise_for_status()]: client and server error codes raise. *)
Definition raise_for_status {B : Type} (resp : Z * option B) : result unit :=
  if ((400 <=? fst resp) && (fst resp <? 600))%Z then Raise HTTPError else Return tt.

(** [resp.json()]. *)
Definition json {B : Type} (resp : Z * option B) : result B :=
  match snd resp with
  | Some data => Return data
  | None => Raise JSONDecodeError
  end.

End Http.

(** ** [int] on a string *)

Module PyInt.

Definition is_space (c : ascii) : bool :=
  match nat_of_ascii c with
  | 9%nat | 10%nat | 11%nat | 12%nat | 13%nat | 32%nat => true
  | _ => false
  end.

Definition digit_of (c : ascii) : option Z :=
  let n := Z.of_nat (nat_of_ascii c) in
  if ((48 <=? n) && (n <=? 57))%Z then Some (n - 48)%Z else None.

Fixpoint lstrip (s : string) : string :=
  match s with
  | String c s' => if is_space c then lstrip s' else s
  | EmptyString => EmptyString
  end.

Fixpoint rstrip (s : string) : string :=
  match s with
  | String c s' =>
      match rstrip s' with
      | EmptyString => if is_space c then EmptyString else String c EmptyString
      | r => String c r
      end
  | EmptyString => EmptyString
  end.

(** Decimal digits, with single underscores allowed between two digits. *)
Fixpoint digits (acc : Z) (after_digit : bool) (s : string) : option Z :=
  match s with
  | EmptyString => if after_digit then Some acc else None
  | String c s' =>
      if Ascii.eqb c "_"%char
      then (if after_digit then digits acc false s' else None)
      else match digit_of c with
           | Some d => digits (acc * 10 + d)%Z true s'
           | None => None
           end
  end.

(** [int(s)] for a [str] in base 10: surrounding white space, an optional
    sign, decimal digits. Anything else is a [ValueError]. Only the ASCII
    forms of white space and digits are covered, and the number of digits
    is not bounded (an interpreter that bounds it, at 4300 by default,
    raises [ValueError] beyond the bound). *)
Definition int (s : string) : result Z :=
  let parsed :=
    match rstrip (lstrip s) with
    | String "-"%char r => Z.opp <$> digits 0 false r
    | String "+"%char r => digits 0 false r
    | r => digits 0 false r
    end in
  match parsed with
  | Some z => Return z
  | None => Raise ValueError
  end.

End PyInt.

(** ** The area-insights service *)

Definition COUNT_LIMIT : Z := 100.

Inductive insight : Type := INSIGHT_COUNT | INSIGHT_PLACES.

(** The body of a [computeInsights] request. The type, rating and status
    filters are the same in every request and are left out. *)
Record compute_insights : Type := mk_request {
  insights : insight;
  circle : R * R * R   (* latitude, longitude, radius *)
}.

#[global] Instance insight_eq_dec : EqDecision insight.
Proof. solve_decision. Defined.

(** The request a box gives rise to. *)
Definition request_for (i : insight) (box : bbox) : compute_insights :=
  mk_request i (bbox_center_radius_m box).

(** How many requests of one kind a log holds. *)
Definition calls_of (i : insight) (log : list compute_insights) : nat :=
  length (filter (fun r => insights r = i) log).

(** One entry of ["places"]; [None] is what [p.get] gives for a key that
    is absent. *)
Record place_entry : Type := mk_entry {
  entry_name : option string;
  entry_id : option string
}.

(** The decoded reply [{"count": "123"}] or [{"places": [...]}]; [None]
    for a key that is absent. *)
Record insights_body : Type := mk_body {
  count : option string;
  places : option (list place_entry)
}.

(** The service: what it delivers for a request, given the requests
    already sent. *)
Definition insights_service : Type :=
  list compute_insights -> compute_insights -> delivery insights_body.

(** Truth value of a [str] or [None]. *)
Definition truthy_str (o : option string) : bool :=
  match o with
  | Some (String _ _) => true
  | _ => false
  end.

(** [x or y]. *)
Definition py_or (x y : option string) : option string :=
  if truthy_str x then x else y.

Module Insights.

(** [aggregate_count_for_bbox]; the second component is the list of
    requests sent once the call is over. *)
Definition aggregate_count_for_bbox (svc : insights_service) (b : bbox)
    (sent : list compute_insights) : result Z * list compute_insights :=
  let '(lat, lng, radius) := bbox_center_radius_m b in
  let body := {| insights := INSIGHT_COUNT; circle := (lat, lng, radius) |} in
  (resp ← Http.request (svc sent body);
   _ ← Http.raise_for_status resp;
   data ← Http.json resp;
   PyInt.int (default "0"%string (count data)),
   sent ++ [body]).

(** The loop over [data.get("places", [])]. *)
Fixpoint collect_names (ps : list place_entry) (names : list string) : list string :=
  match ps with
  | [] => names
  | p :: ps' =>
      let n := py_or (entry_name p) (entry_id p) in
      match n with
      | Some s => if truthy_str n then collect_names ps' (names ++ [s])
                  else collect_names ps' names
      | None => collect_names ps' names
      end
  end.

(** [aggregate_places_for_bbox]. *)
Definition aggregate_places_for_bbox (svc : insights_service) (b : bbox)
    (sent : list compute_insights) : result (list string) * list compute_insights :=
  let '(lat, lng, radius) := bbox_center_radius_m b in
  let body := {| insights := INSIGHT_PLACES; circle := (lat, lng, radius) |} in
  (resp ← Http.request (svc sent body);
   _ ← Http.raise_for_status resp;
   data ← Http.json resp;
   mret (collect_names (default [] (places data)) []),
   sent ++ [body]).

End Insights.

(** ** The geocoder *)

(** The Nominatim reply: a list of matches, each with its
    ["boundingbox"] as [south, north, west, east]. *)
Definition nominatim : Type := string -> delivery (list (R * R * R * R)).

(** [get_city_bbox]; its [except Exception] clause re-raises. *)
Definition get_city_bbox (geo : nominatim) (city : string) : result bbox :=
  r ← Http.request (geo city);
  _ ← Http.raise_for_status r;
  arr ← Http.json r;
  match arr with
  | [] => Raise ValueError
  | (south, north, west, east) :: _ =>
      Return {| top := north; bottom := south; left := west; right := east |}
  end.

(** ** The worklist loop *)

Module Decomposer.

(** [stack.pop()]: the last element and the list without it. *)
Fixpoint pop {A : Type} (l : list A) : option (list A * A) :=
  match l with
  | [] => None
  | x :: l' =>
      match pop l' with
      | None => Some ([], x)
      | Some (r, y) => Some (x :: r, y)
      end
  end.

(** [for n in names: ids.add(n)]. *)
Definition add_all (ids : gset string) (names : list string) : gset string :=
  foldl (fun acc n => {[ n ]} ∪ acc) ids names.

(** [sorted(ids)]: strings compare by code point, which on their UTF-8
    bytes is the bytewise order [String.le]. *)
Definition sorted (ids : gset string) : list string :=
  merge_sort String.le (elements ids).

(** The variables of [collect_place_ids_for_city], with the requests
    sent to the service so far. *)
Record state : Type := mk_state {
  stack : list bbox;
  ids : gset string;
  sent : list compute_insights
}.

(** What one pass through the body of the [while] does: go on with a new
    state, or leave the function with an exception. *)
Inductive outcome : Type :=
  | Next (st : state)
  | Propagate (e : exn).

(** The body of [while stack:]. *)
Definition iteration (svc : insights_service) (st : state) : outcome :=
  match pop (stack st) with
  | None => Propagate IndexError
  | Some (stack1, box) =>
      match Insights.aggregate_count_for_bbox svc box (sent st) with
      | (Raise HTTPError, sent1) =>
          if (length stack1 <? 2048)%nat
          then Next (mk_state (stack1 ++ split_bbox box) (ids st) sent1)
          else Next (mk_state stack1 (ids st) sent1)
      | (Raise e, _) => Propagate e
      | (Return cnt, sent1) =>
          if (cnt =? 0)%Z then Next (mk_state stack1 (ids st) sent1)
          else if (cnt <=? COUNT_LIMIT)%Z then
            match Insights.aggregate_places_for_bbox svc box sent1 with
            | (Raise HTTPError, sent2) =>
                Next (mk_state (stack1 ++ split_bbox box) (ids st) sent2)
            | (Raise e, _) => Propagate e
            | (Return names, sent2) =>
                Next (mk_state stack1 (add_all (ids st) names) sent2)
            end
          else Next (mk_state (stack1 ++ split_bbox box) (ids st) sent1)
      end
  end.

(** [while stack: ...], for at most [fuel] passes; [None] when the stack
    is still not empty after that many. *)
Fixpoint while_stack (fuel : nat) (svc : insights_service) (st : state)
    : option (result state) :=
  match stack st with
  | [] => Some (Return st)
  | _ :: _ =>
      match fuel with
      | O => None
      | S fuel' =>
          match iteration svc st with
          | Next st' => while_stack fuel' svc st'
          | Propagate e => Some (Raise e)
          end
      end
  end.

(** [collect_place_ids_for_city]. *)
Definition collect_place_ids_for_city (fuel : nat) (geo : nominatim)
    (svc : insights_service) (city : string) : option (result (list string)) :=
  match get_city_bbox geo city with
  | Raise e => Some (Raise e)
  | Return bbox =>
      match while_stack fuel svc (mk_state [bbox] ∅ []) with
      | None => None
      | Some (Raise e) => Some (Raise e)
      | Some (Return st) => Some (Return (sorted (ids st)))
      end
  end.

End Decomposer.

(** ** Place details *)

#[local] Set Warnings "-register-all".

(** A decoded JSON value. Numbers are rationals, which cover every
    decimal literal; an object is the list of its members. *)
Inductive json : Type :=
  | JNull
  | JBool (b : bool)
  | JNum (q : Q)
  | JStr (s : string)
  | JArr (items : list json)
  | JObj (members : list (string * json)).

Definition dict : Type := list (string * json).

Module Py.

(** [d.get(k)], with [None] as [JNull]. *)
Fixpoint get (d : dict) (k : string) : option json :=
  match d with
  | [] => None
  | (k', v) :: d' => if String.eqb k' k then Some v else get d' k
  end.

(** Truth value. *)
Definition truthy (v : json) : bool :=
  match v with
  | JNull => false
  | JBool b => b
  | JNum q => negb (Qnum q =? 0)%Z
  | JStr s => negb (String.eqb s "")
  | JArr items => match items with [] => false | _ => true end
  | JObj members => match members with [] => false | _ => true end
  end.

(** Substring test. *)
Fixpoint contains (needle hay : string) : bool :=
  String.prefix needle hay ||
  match hay with
  | EmptyString => false
  | String _ hay' => contains needle hay'
  end.

(** [k in v] for a string [k]. *)
Definition is_in (k : string) (v : json) : result bool :=
  match v with
  | JObj members => Return (existsb (fun kv => String.eqb (fst kv) k) members)
  | JArr items =>
      Return (existsb (fun x => match x with JStr s => String.eqb s k | _ => false end) items)
  | JStr s => Return (contains k s)
  | _ => Raise TypeError
  end.

(** [v[k]] for a string [k]. *)
Definition index (v : json) (k : string) : result json :=
  match v with
  | JObj members =>
      match get members k with
      | Some x => Return x
      | None => Raise KeyError
      end
  | _ => Raise TypeError
  end.

End Py.

(** The detail service: what it delivers for a resource name. *)
Definition details_service : Type := string -> delivery dict.

Module Hydration.

(** The dict that [hydrate_places] appends for one place. *)
Record place : Type := mk_place {
  id : json;
  name : json;
  resourceName : json;
  googleMapsUri : json;
  primaryType : json;
  primaryTypeDisplayName : json;
  types : json;
  rating : json;
  userRatingCount : json;
  priceLevel : json;
  priceRange : json;
  gps_coordinates : json
}.

(** [place_details]: [None] on a 404, the decoded record otherwise. *)
Definition place_details (svc : details_service) (place_resource_name : string)
    : result (option dict) :=
  resp ← Http.request (svc place_resource_name);
  if (fst resp =? 404)%Z then Return None
  else
    _ ← Http.raise_for_status resp;
    data ← Http.json resp;
    Return (Some data).

(** [data.get(k)]. *)
Definition field (data : dict) (k : string) : json :=
  default JNull (Py.get data k).

(** [data.get(k, {}).get("text") if isinstance(data.get(k), dict)
    else data.get(k)]. *)
Definition text_of (data : dict) (k : string) : json :=
  match field data k with
  | JObj members => default JNull (Py.get members "text")
  | v => v
  end.

(** The [gps_coordinates] entry. *)
Definition gps_of (data : dict) : result json :=
  let location_data := default (JObj []) (Py.get data "location") in
  if Py.truthy location_data then
    has_lat ← Py.is_in "latitude" location_data;
    if has_lat : bool then
      has_lng ← Py.is_in "longitude" location_data;
      if has_lng : bool then
        lat ← Py.index location_data "latitude";
        lng ← Py.index location_data "longitude";
        Return (JObj [("latitude"%string, lat); ("longitude"%string, lng)])
      else Return JNull
    else Return JNull
  else Return JNull.

(** The shape the frontend reads. *)
Definition normalize (data : dict) : result place :=
  gps ← gps_of data;
  Return {|
    id := field data "id";
    name := text_of data "displayName";
    resourceName := field data "name";
    googleMapsUri := field data "googleMapsUri";
    primaryType := field data "primaryType";
    primaryTypeDisplayName := text_of data "primaryTypeDisplayName";
    types := default (JArr []) (Py.get data "types");
    rating := field data "rating";
    userRatingCount := field data "userRatingCount";
    priceLevel := field data "priceLevel";
    priceRange := field data "priceRange";
    gps_coordinates := gps
  |}.

(** The [for fut in as_completed(futs)] loop. A future is the outcome of
    its [place_details] call, kept with the name it was submitted for;
    [fut.result()] re-raises what the call raised. *)
Fixpoint collect (futs : list (result (option dict) * string)) (out : list place)
    : result (list place) :=
  match futs with
  | [] => Return out
  | (fut, _) :: futs' =>
      data ← fut;
      match data with
      | None | Some [] => collect futs' out
      | Some data =>
          p ← normalize data;
          collect futs' (out ++ [p])
      end
  end.

(** [hydrate_places]. The pool runs every submitted call;
    [as_completed] hands the futures back in the order in which they
    finished. *)
Definition hydrate_places (as_completed : forall A : Type, list A -> list A)
    (svc : details_service) (place_names : list string) : result (list place) :=
  let futs := map (fun n => (place_details svc n, n)) place_names in
  collect (as_completed _ futs) [].

(** A lookup whose outcome gives a record: it returned, and what it
    returned is a non-empty object. *)
Definition answered (fut : result (option dict)) : bool :=
  match fut with
  | Return (Some (_ :: _)) => true
  | _ => false
  end.

(** What [collect] keeps of a future: the normalized record of its
    lookup. *)
Definition kept_as (f : result (option dict) * string) (p : place) : Prop :=
  exists d, fst f = Return (Some d) /\ d <> [] /\ normalize d = Return p.

(** The claim that a lookup that fails is dropped like a 404: hydration
    returns, with the records of the names whose lookup gave one. *)
Definition drops_failed_lookups (as_completed : forall A : Type, list A -> list A)
    (svc : details_service) (place_names : list string) : Prop :=
  exists out,
    hydrate_places as_completed svc place_names = Return out /\
    length out = length (filter (fun n => answered (place_details svc n)) place_names).

End Hydration.

(** ** The centre of a box *)

Module Quadrants.

(** The centre that [bbox_center_radius_m] returns, as a point. *)
Definition center (b : bbox) : point :=
  (fst (fst (bbox_center_radius_m b)), snd (fst (bbox_center_radius_m b))).

End Quadrants.

(** ** Consecutive passes *)

Module Run.

(** The state after [n] consecutive passes through the body of the
    [while], when each of them ends normally. *)
Fixpoint passes (n : nat) (svc : insights_service) (st : Decomposer.state)
    : Decomposer.outcome :=
  match n with
  | O => Decomposer.Next st
  | S n' =>
      match Decomposer.iteration svc st with
      | Decomposer.Next st' => passes n' svc st'
      | Decomposer.Propagate e => Decomposer.Propagate e
      end
  end.

(** A service whose count is always 1 and whose listing always fails
    with a server error. *)
Definition listing_always_fails : insights_service :=
  fun _ req =>
    match insights req with
    | INSIGHT_COUNT => Response 200 (Some (mk_body (Some "1"%string) None))
    | INSIGHT_PLACES => Response 500 None
    end.

End Run.

(** ** One future at a time *)

Module Futures.

(** What the loop of [hydrate_places] does with one future: raise what
    the lookup raised, skip a 404 or an empty record, or normalize the
    record. *)
Definition settle (f : result (option dict) * string) : result (option Hydration.place) :=
  data ← fst f;
  match data with
  | None | Some [] => Return None
  | Some data => p ← Hydration.normalize data; Return (Some p)
  end.

(** The record a future contributes, if any. *)
Definition record_of (f : result (option dict) * string) : option Hydration.place :=
  match settle f with
  | Return (Some p) => Some p
  | _ => None
  end.

End Futures.

(** ** Strings and paths *)

(** The [str] methods the handlers use, on byte strings. They are the
    Python ones on ASCII text; a byte from 128 up is left as it is and is
    not white space, where Python may lower-case or strip its character. *)
Module Str.

(** White space for [str.strip()]: tab to carriage return, the four
    separators 28..31, and the space. *)
Definition is_space (c : ascii) : bool :=
  match nat_of_ascii c with
  | 9%nat | 10%nat | 11%nat | 12%nat | 13%nat
  | 28%nat | 29%nat | 30%nat | 31%nat | 32%nat => true
  | _ => false
  end.

Fixpoint lstrip (s : string) : string :=
  match s with
  | String c s' => if is_space c then lstrip s' else s
  | EmptyString => EmptyString
  end.

Fixpoint rstrip (s : string) : string :=
  match s with
  | String c s' =>
      match rstrip s' with
      | EmptyString => if is_space c then EmptyString else String c EmptyString
      | r => String c r
      end
  | EmptyString => EmptyString
  end.

(** [s.strip()]. *)
Definition strip (s : string) : string := rstrip (lstrip s).

Definition is_upper (c : ascii) : bool :=
  let n := nat_of_ascii c in ((65 <=? n) && (n <=? 90))%nat.

Definition lower_char (c : ascii) : ascii :=
  if is_upper c then ascii_of_nat (nat_of_ascii c + 32) else c.

(** [s.lower()]. *)
Fixpoint lower (s : string) : string :=
  match s with
  | String c s' => String (lower_char c) (lower s')
  | EmptyString => EmptyString
  end.

(** [s.replace(old, new)] for one-character [old] and [new]. *)
Fixpoint replace (old new : ascii) (s : string) : string :=
  match s with
  | String c s' => String (if Ascii.eqb c old then new else c) (replace old new s')
  | EmptyString => EmptyString
  end.

(** Every byte is below 128. *)
Fixpoint is_ascii (s : string) : bool :=
  match s with
  | String c s' => (nat_of_ascii c <? 128)%nat && is_ascii s'
  | EmptyString => true
  end.

(** [c in s]. *)
Fixpoint has (c : ascii) (s : string) : bool :=
  match s with
  | String c' s' => Ascii.eqb c' c || has c s'
  | EmptyString => false
  end.


(** Some character of [s] is an upper-case letter. *)
Fixpoint has_upper (s : string) : bool :=
  match s with
  | String c s' => is_upper c || has_upper s'
  | EmptyString => false
  end.

(** The image of a string under a map on characters. *)
Fixpoint map (f : ascii -> ascii) (s : string) : string :=
  match s with
  | String c s' => String (f c) (map f s')
  | EmptyString => EmptyString
  end.

End Str.

(** [slugify_city]. *)
Definition slugify_city (city : string) : string :=
  Str.replace " " "_" (Str.lower (Str.strip city)).

(** [os.path.join] of two parts, on POSIX. *)
Module Path.

Definition starts_with_sep (s : string) : bool :=
  match s with
  | String "/"%char _ => true
  | _ => false
  end.

Fixpoint ends_with_sep (s : string) : bool :=
  match s with
  | EmptyString => false
  | String c EmptyString => Ascii.eqb c "/"
  | String _ s' => ends_with_sep s'
  end.

Definition join (a b : string) : string :=
  if starts_with_sep b then b
  else if String.eqb a "" || ends_with_sep a then String.append a b
  else String.append a (String "/" b).

End Path.

(** ** The request handlers *)

Module Api.

(** The module-level configuration. *)
Record config : Type := mk_config {
  GOOGLE_API_KEY : string;
  OUTPUT_DIR : string
}.

(** What a handler meets outside the process: the three services, the
    order in which the pool hands back its futures, the bound on the
    passes of the worklist loop, which paths can be opened for writing,
    and what the clock gives ([elapsed] for [round(time.time() - t0, 2)],
    [now] for [int(time.time())]). *)
Record world : Type := mk_world {
  geo : nominatim;
  insights_svc : insights_service;
  details_svc : details_service;
  as_completed : forall A : Type, list A -> list A;
  fuel : nat;
  writable : string -> bool;
  elapsed : R;
  now : Z
}.

(** The payload that [search] saves; its ["filters"] entry is the
    constant [{"minRating": 4.5}]. *)
Record payload : Type := mk_payload {
  city : string;
  generatedAt : Z;
  totalPlaces : nat;
  places : list Hydration.place
}.

(** The JSON bodies of the answers. *)
Inductive body : Type :=
  | Error (message : string)                 (* {"error": message} *)
  | Failure (e : exn)                        (* {"error": str(e)} *)
  | Overflow                                 (* the same, for an OverflowError *)
  | CountOnly (elapsedSec : R) (totalHydrated : nat) (estimatedCost : R)
  | Saved (elapsedSec : R) (saved : string) (totalHydrated : nat) (data : payload)
  | Count (for_city : string) (restaurantCount : Z) (estimatedCost : R).

(** An answer, with the file the handler wrote, if it wrote one. *)
Record reply : Type := mk_reply {
  status : Z;
  json : body;
  written : option (string * payload)
}.

(** How a handler ends: with an answer, or with an exception that it
    does not catch ([OSError] when the file cannot be opened). *)
Inductive outcome : Type :=
  | Replied (r : reply)
  | Escaped (e : exn)
  | EscapedOSError.


(** [request.args.get(key, "")]. *)
Definition arg (a : option string) : string := default ""%string a.

(** The path [search] saves to. *)
Definition out_path (cfg : config) (city : string) : string :=
  Path.join (OUTPUT_DIR cfg) (String.append (slugify_city city) ".json").

(** [search]; [None] when the worklist loop is still running after
    [fuel] passes. *)
Definition search (cfg : config) (w : world) (city_arg count_only_arg : option string)
    : option outcome :=
  if String.eqb (GOOGLE_API_KEY cfg) "" then
    Some (Replied (mk_reply 500 (Error "Set GOOGLE_API_KEY env var") None))
  else
    let city := Str.strip (arg city_arg) in
    if String.eqb city "" then
      Some (Replied (mk_reply 400 (Error "Missing ?city=") None))
    else
      let count_only := String.eqb (Str.lower (arg count_only_arg)) "true" in
      match Decomposer.collect_place_ids_for_city (fuel w) (geo w) (insights_svc w) city with
      | None => None
      | Some (Raise e) => Some (Escaped e)
      | Some (Return place_names) =>
          if count_only then
            Some (Replied (mk_reply 200
                    (CountOnly (elapsed w) (length place_names)
                               (INR (length place_names) * 0.02))
                    None))
          else
            match Hydration.hydrate_places (as_completed w) (details_svc w) place_names with
            | Raise e => Some (Escaped e)
            | Return places =>
                let payload := mk_payload city (now w) (length places) places in
                let out_path := out_path cfg city in
                if writable w out_path then
                  Some (Replied (mk_reply 200
                          (Saved (elapsed w) out_path (length places) payload)
                          (Some (out_path, payload))))
                else Some EscapedOSError
            end
      end.


End Api.

(** ** Scripted services *)

(** Services and inputs for running the model on concrete exchanges. *)
Module Scenario.

Definition city_box : bbox := mk_bbox 2 0 0 4.

(** A service that answers the n-th request with the n-th delivery of a
    script, and does not answer once the script is over. *)
Definition scripted (script : list (delivery insights_body)) : insights_service :=
  fun log _ => default NoResponse (script !! length log).

Definition counted (n : string) : delivery insights_body :=
  Response 200 (Some (mk_body (Some n) None)).

Definition listed (ps : list place_entry) : delivery insights_body :=
  Response 200 (Some (mk_body None (Some ps))).

Definition failed : delivery insights_body := Response 500 None.

Definition named (n : string) : place_entry := mk_entry (Some n) None.

(** A service that always delivers the same thing. *)
Definition always (d : delivery insights_body) : insights_service :=
  fun _ _ => d.

(** A geocoder that finds one match, with bounds 0..2 north and 0..4
    east. *)
Definition one_city : nominatim :=
  fun _ => Response 200 (Some [(0, 2, 0, 4)]).

(** A search in which the root holds 250 places and is split, the SE and
    SW quadrants both list ["places/a"], the NE quadrant is empty and the
    count for the NW quadrant fails once, after which its four quadrants
    are empty. *)
Definition overlapping_search : insights_service :=
  scripted
    [counted "250";
     counted "2"; listed [named "places/b"; named "places/a"];
     counted "1"; listed [named "places/a"];
     counted "0";
     failed;
     counted "0"; counted "0"; counted "0"; counted "0"].

(** A detail service that knows ["places/a"], answers 404 for
    ["places/gone"] and 500 for everything else. *)
Definition details : details_service :=
  fun n =>
    if String.eqb n "places/a" then
      Response 200 (Some [("id"%string, JStr "a");
                          ("displayName"%string, JObj [("text"%string, JStr "A")])])
    else if String.eqb n "places/gone" then Response 404 None
    else Response 500 None.

(** Futures handed back in the order of submission, and in the reverse
    order. *)
Definition in_order : forall A : Type, list A -> list A := fun _ l => l.
Definition reversed : forall A : Type, list A -> list A := fun _ l => rev l.

(** A stack of 2048 boxes. *)
Definition full_stack : list bbox := repeat city_box 2047 ++ [city_box].

End Scenario.

(** * Properties *)

(** ** The quadrant split *)

Section Split.

Variable b : bbox.
Hypothesis Hwf : well_formed b.



Lemma mid_lat_between : bottom b <= mid_lat b <= top b.
Proof. destruct Hwf. unfold mid_lat. lra. Qed.

Lemma mid_lng_between : left b <= mid_lng b <= right b.
Proof. destruct Hwf. unfold mid_lng. lra. Qed.




Lemma split_bbox_children :
  Forall (fun q => well_formed q /\ within q b) (split_bbox b).
Proof.
  pose proof mid_lat_between as Hlat. pose proof mid_lng_between as Hlng.
  destruct Hwf.
  unfold split_bbox. fold (mid_lat b) (mid_lng b).
  repeat first [apply List.Forall_cons | apply List.Forall_nil];
    unfold well_formed, within; simpl; lra.
Qed.

End Split.



(** C8. For every box with north ≥ south and east ≥ west, each of the
    four children of [split_bbox] again has north ≥ south and east ≥ west,
    and lies within the parent. *)
Theorem split_bbox_preserves_invariant (b : bbox) :
  well_formed b ->
  Forall (fun q => well_formed q /\ within q b) (split_bbox b).
Proof. apply split_bbox_children. Qed.

Lemma split_bbox_preserves_invariant_witness :
  well_formed (mk_bbox 2 0 0 4) /\
  Forall (fun q => well_formed q /\ within q (mk_bbox 2 0 0 4))
         (split_bbox (mk_bbox 2 0 0 4)).
Proof.
  assert (Hwf : well_formed (mk_bbox 2 0 0 4)) by (unfold well_formed; simpl; lra).
  split; [exact Hwf | exact (split_bbox_preserves_invariant _ Hwf)].
Defined.

(** ** The covering circle *)

Lemma sqrt_quarter (x : R) : 0 <= x -> sqrt (x / 4) = sqrt x / 2.
Proof.
  intros Hx.
  replace (x / 4) with (x * (/ 2 * / 2)) by lra.
  rewrite sqrt_mult_alt by exact Hx.
  rewrite sqrt_square by lra. reflexivity.
Qed.

(** The radius before the floor is the half-diagonal. *)
Lemma radius_is_half_diagonal (b : bbox) :
  sqrt (((top b - bottom b) / 2 * 111320) ^ 2
        + ((right b - left b) / 2 * (111320 * cos (radians ((top b + bottom b) / 2)))) ^ 2)
  = half_diagonal b.
Proof.
  unfold half_diagonal, equirect_dist, mid_lat. simpl fst. simpl snd.
  set (c := cos _). set (h := top b - bottom b). set (w := right b - left b).
  rewrite <- sqrt_quarter.
  - f_equal. lra.
  - apply Rplus_le_le_0_compat; apply pow2_ge_0.
Qed.

(** The circle covers the box: under the same approximation, no point of
    the box is farther from the centre than the radius. *)
Lemma covering_circle_covers (b : bbox) (p : point) :
  covers b p ->
  equirect_dist (mid_lat b) p (mid_lat b, mid_lng b) <= snd (bbox_center_radius_m b).
Proof.
  intros [[Hb Ht] [Hl Hr]].
  unfold bbox_center_radius_m. cbv zeta. cbn [snd].
  eapply Rle_trans; [|apply Rmax_l].
  unfold equirect_dist, mid_lat, mid_lng. cbn [fst snd].
  set (c := cos _). apply sqrt_le_1_alt.
  apply Rplus_le_compat.
  - nra.
  - assert (Hw : (snd p - (left b + right b) / 2) ^ 2 <= ((right b - left b) / 2) ^ 2) by nra.
    replace (((snd p - (left b + right b) / 2) * (111320 * c)) ^ 2)
      with ((snd p - (left b + right b) / 2) ^ 2 * (111320 * c) ^ 2) by ring.
    replace (((right b - left b) / 2 * (111320 * c)) ^ 2)
      with (((right b - left b) / 2) ^ 2 * (111320 * c) ^ 2) by ring.
    apply Rmult_le_compat_r; [apply pow2_ge_0 | exact Hw].
Qed.

(** C6. For every box, [bbox_center_radius_m] returns the centre of the
    box and, as radius, the larger of the half-diagonal under the
    equirectangular approximation at the centre latitude and 50 m; so the
    radius is at least the half-diagonal and at least 50 m. *)
Theorem covering_circle_radius (b : bbox) :
  bbox_center_radius_m b = (mid_lat b, mid_lng b, Rmax (half_diagonal b) 50) /\
  half_diagonal b <= snd (bbox_center_radius_m b) /\
  50 <= snd (bbox_center_radius_m b).
Proof.
  assert (E : bbox_center_radius_m b
              = (mid_lat b, mid_lng b, Rmax (half_diagonal b) 50)).
  { unfold bbox_center_radius_m. cbv zeta.
    rewrite radius_is_half_diagonal. reflexivity. }
  rewrite E. simpl snd.
  split; [reflexivity|]. split; [apply Rmax_l | apply Rmax_r].
Qed.

(** ** One pass of the worklist loop *)

Local Close Scope R_scope.
Import Decomposer.

Lemma pop_app {A : Type} (l : list A) (x : A) : pop (l ++ [x]) = Some (l, x).
Proof.
  induction l as [|y l IH]; simpl; [reflexivity|]. rewrite IH. reflexivity.
Qed.

Lemma pop_Some {A : Type} (l r : list A) (x : A) :
  pop l = Some (r, x) -> l = r ++ [x].
Proof.
  revert r. induction l as [|y l IH]; simpl; intros r H; [discriminate|].
  destruct (pop l) as [[r' z]|] eqn:E.
  - inversion H; subst. rewrite (IH r' eq_refl). reflexivity.
  - inversion H; subst. destruct l as [|u l]; [reflexivity|].
    simpl in E. destruct (pop l) as [[? ?]|]; discriminate.
Qed.

Lemma aggregate_count_sent svc box log :
  snd (Insights.aggregate_count_for_bbox svc box log)
  = log ++ [request_for INSIGHT_COUNT box].
Proof.
  unfold Insights.aggregate_count_for_bbox, request_for.
  destruct (bbox_center_radius_m box) as [[lat lng] radius]. reflexivity.
Qed.

Lemma aggregate_places_sent svc box log :
  snd (Insights.aggregate_places_for_bbox svc box log)
  = log ++ [request_for INSIGHT_PLACES box].
Proof.
  unfold Insights.aggregate_places_for_bbox, request_for.
  destruct (bbox_center_radius_m box) as [[lat lng] radius]. reflexivity.
Qed.

Lemma calls_of_app i log log' :
  calls_of i (log ++ log') = (calls_of i log + calls_of i log')%nat.
Proof. unfold calls_of. rewrite filter_app, length_app. reflexivity. Qed.

Lemma elem_of_add_all (acc : gset string) (names : list string) (x : string) :
  x ∈ add_all acc names <-> x ∈ acc \/ x ∈ names.
Proof.
  unfold add_all. revert acc.
  induction names as [|n names IH]; intros acc; simpl.
  - rewrite elem_of_nil. tauto.
  - rewrite IH, elem_of_union, elem_of_singleton, elem_of_cons. tauto.
Qed.

Lemma add_all_union (acc : gset string) (names : list string) :
  add_all acc names = acc ∪ list_to_set names.
Proof.
  apply set_eq. intros x.
  rewrite elem_of_add_all, elem_of_union, elem_of_list_to_set. tauto.
Qed.

(** Name the two components of an adapter call whose outcome [H] gives. *)
Ltac open_call c H :=
  let Hs := fresh "Hs" in
  let r := fresh "r" in
  let s := fresh "s" in
  first [ pose proof (aggregate_count_sent _ _ _ : snd c = _) as Hs
        | pose proof (aggregate_places_sent _ _ _ : snd c = _) as Hs ];
  destruct c as [r s];
  cbn [fst snd] in H, Hs; subst r s.

Section Pass.

Variable svc : insights_service.
Variable st : state.
Variable stack1 : list bbox.
Variable box : bbox.
Hypothesis Hstack : stack st = stack1 ++ [box].

Local Abbreviation sent1 := (sent st ++ [request_for INSIGHT_COUNT box]).
Local Abbreviation sent2 := (sent1 ++ [request_for INSIGHT_PLACES box]).

Lemma pass_count_zero :
  fst (Insights.aggregate_count_for_bbox svc box (sent st)) = Return 0%Z ->
  iteration svc st = Next (mk_state stack1 (ids st) sent1).
Proof.
  intros H. unfold iteration. rewrite Hstack, pop_app.
  open_call (Insights.aggregate_count_for_bbox svc box (sent st)) H. reflexivity.
Qed.

Lemma pass_count_over cnt :
  fst (Insights.aggregate_count_for_bbox svc box (sent st)) = Return cnt ->
  (COUNT_LIMIT < cnt)%Z ->
  iteration svc st = Next (mk_state (stack1 ++ split_bbox box) (ids st) sent1).
Proof.
  intros H Hc. unfold iteration. rewrite Hstack, pop_app.
  open_call (Insights.aggregate_count_for_bbox svc box (sent st)) H. unfold COUNT_LIMIT in *.
  destruct (Z.eqb_spec cnt 0); [lia|].
  destruct (Z.leb_spec cnt 100); [lia|]. reflexivity.
Qed.

Lemma pass_count_http_error :
  fst (Insights.aggregate_count_for_bbox svc box (sent st)) = Raise HTTPError ->
  iteration svc st =
  Next (mk_state (if (length stack1 <? 2048)%nat then stack1 ++ split_bbox box else stack1)
                 (ids st) sent1).
Proof.
  intros H. unfold iteration. rewrite Hstack, pop_app.
  open_call (Insights.aggregate_count_for_bbox svc box (sent st)) H. destruct (length stack1 <? 2048)%nat; reflexivity.
Qed.

Lemma pass_listed cnt names :
  fst (Insights.aggregate_count_for_bbox svc box (sent st)) = Return cnt ->
  cnt <> 0%Z -> (cnt <= COUNT_LIMIT)%Z ->
  fst (Insights.aggregate_places_for_bbox svc box sent1) = Return names ->
  iteration svc st = Next (mk_state stack1 (add_all (ids st) names) sent2).
Proof.
  intros H Hz Hc Hl. unfold iteration. rewrite Hstack, pop_app.
  open_call (Insights.aggregate_count_for_bbox svc box (sent st)) H.
  open_call (Insights.aggregate_places_for_bbox svc box sent1) Hl.
  unfold COUNT_LIMIT in *.
  destruct (Z.eqb_spec cnt 0); [lia|].
  destruct (Z.leb_spec cnt 100); [|lia]. reflexivity.
Qed.

Lemma pass_listing_http_error cnt :
  fst (Insights.aggregate_count_for_bbox svc box (sent st)) = Return cnt ->
  cnt <> 0%Z -> (cnt <= COUNT_LIMIT)%Z ->
  fst (Insights.aggregate_places_for_bbox svc box sent1) = Raise HTTPError ->
  iteration svc st = Next (mk_state (stack1 ++ split_bbox box) (ids st) sent2).
Proof.
  intros H Hz Hc Hl. unfold iteration. rewrite Hstack, pop_app.
  open_call (Insights.aggregate_count_for_bbox svc box (sent st)) H.
  open_call (Insights.aggregate_places_for_bbox svc box sent1) Hl.
  unfold COUNT_LIMIT in *.
  destruct (Z.eqb_spec cnt 0); [lia|].
  destruct (Z.leb_spec cnt 100); [|lia]. reflexivity.
Qed.

End Pass.

Lemma aggregate_count_eq svc box log :
  Insights.aggregate_count_for_bbox svc box log
  = (resp ← Http.request (svc log (request_for INSIGHT_COUNT box));
     _ ← Http.raise_for_status resp;
     data ← Http.json resp;
     PyInt.int (default "0"%string (count data)),
     log ++ [request_for INSIGHT_COUNT box]).
Proof.
  unfold Insights.aggregate_count_for_bbox, request_for.
  destruct (bbox_center_radius_m box) as [[lat lng] radius]. reflexivity.
Qed.

Lemma aggregate_places_eq svc box log :
  Insights.aggregate_places_for_bbox svc box log
  = (resp ← Http.request (svc log (request_for INSIGHT_PLACES box));
     _ ← Http.raise_for_status resp;
     data ← Http.json resp;
     mret (Insights.collect_names (default [] (places data)) []),
     log ++ [request_for INSIGHT_PLACES box]).
Proof.
  unfold Insights.aggregate_places_for_bbox, request_for.
  destruct (bbox_center_radius_m box) as [[lat lng] radius]. reflexivity.
Qed.

Lemma raise_for_status_ok {B : Type} (status : Z) (body : option B) :
  (status < 400 \/ 600 <= status)%Z ->
  Http.raise_for_status (status, body) = Return tt.
Proof.
  intros H. unfold Http.raise_for_status. cbn [fst].
  destruct (Z.leb_spec 400 status), (Z.ltb_spec status 600); simpl; try reflexivity; lia.
Qed.

Lemma collect_names_app ps qs names :
  Insights.collect_names (ps ++ qs) names
  = Insights.collect_names qs (Insights.collect_names ps names).
Proof.
  revert names. induction ps as [|p ps IH]; intros names; simpl; [reflexivity|].
  destruct (py_or (entry_name p) (entry_id p)) as [n|]; [|apply IH].
  destruct (truthy_str (Some n)); apply IH.
Qed.

(** Exceptions other than [HTTPError] leave the loop. *)
Lemma pass_count_other_error svc st stack1 box e :
  stack st = stack1 ++ [box] ->
  fst (Insights.aggregate_count_for_bbox svc box (sent st)) = Raise e ->
  e <> HTTPError ->
  iteration svc st = Propagate e.
Proof.
  intros Hstack H He. unfold iteration. rewrite Hstack, pop_app.
  open_call (Insights.aggregate_count_for_bbox svc box (sent st)) H.
  destruct e; congruence.
Qed.

Lemma pass_listing_other_error svc st stack1 box cnt e :
  stack st = stack1 ++ [box] ->
  fst (Insights.aggregate_count_for_bbox svc box (sent st)) = Return cnt ->
  cnt <> 0%Z -> (cnt <= COUNT_LIMIT)%Z ->
  fst (Insights.aggregate_places_for_bbox svc box
         (sent st ++ [request_for INSIGHT_COUNT box])) = Raise e ->
  e <> HTTPError ->
  iteration svc st = Propagate e.
Proof.
  intros Hstack H Hz Hc Hl He. unfold iteration. rewrite Hstack, pop_app.
  open_call (Insights.aggregate_count_for_bbox svc box (sent st)) H.
  open_call (Insights.aggregate_places_for_bbox svc box
               (sent st ++ [request_for INSIGHT_COUNT box])) Hl.
  unfold COUNT_LIMIT in *.
  destruct (Z.eqb_spec cnt 0); [lia|].
  destruct (Z.leb_spec cnt 100); [|lia].
  destruct e; congruence.
Qed.

(** A pass that ends with an exception ends the loop with it. *)
Lemma while_stack_propagate fuel svc st e :
  stack st <> [] ->
  iteration svc st = Propagate e ->
  while_stack (S fuel) svc st = Some (Raise e).
Proof.
  intros Hne Hit. cbn [while_stack]. rewrite Hit.
  destruct (stack st); congruence.
Qed.

(** C1. In a pass whose count call returns: a count of 0 drops the box
    (the stack keeps only what was under it, the set of names is
    unchanged); a count above [COUNT_LIMIT] = 100 puts the four quadrants
    of the box on the stack; in both cases the count request is the only
    request of the pass, so no listing request is made. *)
Theorem count_zero_drops_over_cap_splits svc st stack1 box cnt :
  stack st = stack1 ++ [box] ->
  fst (Insights.aggregate_count_for_bbox svc box (sent st)) = Return cnt ->
  let sent1 := sent st ++ [request_for INSIGHT_COUNT box] in
  COUNT_LIMIT = 100%Z /\
  (cnt = 0%Z -> iteration svc st = Next (mk_state stack1 (ids st) sent1)) /\
  ((COUNT_LIMIT < cnt)%Z ->
     iteration svc st = Next (mk_state (stack1 ++ split_bbox box) (ids st) sent1) /\
     length (split_bbox box) = 4) /\
  calls_of INSIGHT_PLACES sent1 = calls_of INSIGHT_PLACES (sent st).
Proof.
  intros Hstack H sent1. split; [reflexivity|]. split; [|split].
  - intros ->. exact (pass_count_zero svc st stack1 box Hstack H).
  - intros Hc. split; [|reflexivity].
    exact (pass_count_over svc st stack1 box Hstack cnt H Hc).
  - unfold sent1. rewrite calls_of_app. unfold calls_of at 2. simpl. lia.
Qed.

Lemma count_zero_drops_over_cap_splits_witness :
  let svc := Scenario.scripted [Scenario.counted "250"] in
  let st := mk_state [Scenario.city_box] ∅ [] in
  fst (Insights.aggregate_count_for_bbox svc Scenario.city_box (sent st)) = Return 250%Z /\
  iteration svc st
  = Next (mk_state (split_bbox Scenario.city_box) ∅
                   [request_for INSIGHT_COUNT Scenario.city_box]).
Proof.
  split; [reflexivity|].
  refine (proj1 (proj1 (proj2 (proj2
    (count_zero_drops_over_cap_splits
       (Scenario.scripted [Scenario.counted "250"])
       (mk_state [Scenario.city_box] ∅ []) [] Scenario.city_box 250%Z
       eq_refl eq_refl))) _)).
  reflexivity.
Defined.

(** C2, as the code has it. In a pass whose count is greater than 0 and
    at most [COUNT_LIMIT], the listing request is sent once, for the
    covering circle of the box. When it returns names, each of them is in
    the set afterwards (and nothing is lost from the set) and the box
    leaves the stack. When it raises [HTTPError], the four quadrants of
    the box go on the stack and no second listing request is sent in the
    pass. When it raises anything else, the pass ends with that
    exception: nothing is pushed and the exception leaves the loop. *)
Theorem listing_within_cap svc st stack1 box cnt :
  stack st = stack1 ++ [box] ->
  fst (Insights.aggregate_count_for_bbox svc box (sent st)) = Return cnt ->
  (0 < cnt <= COUNT_LIMIT)%Z ->
  let sent1 := sent st ++ [request_for INSIGHT_COUNT box] in
  let sent2 := sent1 ++ [mk_request INSIGHT_PLACES (bbox_center_radius_m box)] in
  let listing := fst (Insights.aggregate_places_for_bbox svc box sent1) in
  snd (Insights.aggregate_places_for_bbox svc box sent1) = sent2 /\
  calls_of INSIGHT_PLACES sent2 = S (calls_of INSIGHT_PLACES (sent st)) /\
  (forall names,
      listing = Return names ->
      iteration svc st = Next (mk_state stack1 (add_all (ids st) names) sent2) /\
      (forall n, n ∈ names -> n ∈ add_all (ids st) names) /\
      ids st ⊆ add_all (ids st) names) /\
  (listing = Raise HTTPError ->
      iteration svc st = Next (mk_state (stack1 ++ split_bbox box) (ids st) sent2) /\
      length (split_bbox box) = 4) /\
  (forall e,
      listing = Raise e -> e <> HTTPError ->
      iteration svc st = Propagate e /\
      forall fuel, while_stack (S fuel) svc st = Some (Raise e)).
Proof.
  intros Hstack H [Hpos Hcap] sent1 sent2 listing.
  assert (Hz : cnt <> 0%Z) by lia.
  split; [apply aggregate_places_sent|].
  split.
  { unfold sent2, sent1. rewrite !calls_of_app. unfold calls_of at 2 3. simpl. lia. }
  split; [|split].
  - intros names Hl. split; [|split].
    + exact (pass_listed svc st stack1 box Hstack cnt names H Hz Hcap Hl).
    + intros n Hn. apply elem_of_add_all. right. exact Hn.
    + intros n Hn. apply elem_of_add_all. left. exact Hn.
  - intros Hl. split; [|reflexivity].
    exact (pass_listing_http_error svc st stack1 box Hstack cnt H Hz Hcap Hl).
  - intros e Hl He.
    pose proof (pass_listing_other_error svc st stack1 box cnt e Hstack H Hz Hcap Hl He)
      as Hit.
    split; [exact Hit|]. intros fuel. apply while_stack_propagate; [|exact Hit].
    rewrite Hstack. destruct stack1; discriminate.
Qed.

Lemma listing_within_cap_witness :
  let svc := Scenario.scripted
               [Scenario.counted "2";
                Scenario.listed [Scenario.named "places/a"; Scenario.named "places/b"]] in
  let st := mk_state [Scenario.city_box] {[ "places/a"%string ]} [] in
  fst (Insights.aggregate_count_for_bbox svc Scenario.city_box (sent st)) = Return 2%Z /\
  exists st', iteration svc st = Next st' /\
              stack st' = [] /\
              "places/b"%string ∈ ids st' /\
              calls_of INSIGHT_PLACES (sent st') = 1.
Proof.
  split; [reflexivity|].
  pose proof (listing_within_cap
    (Scenario.scripted
       [Scenario.counted "2";
        Scenario.listed [Scenario.named "places/a"; Scenario.named "places/b"]])
    (mk_state [Scenario.city_box] {[ "places/a"%string ]} []) [] Scenario.city_box 2%Z
    eq_refl eq_refl ltac:(unfold COUNT_LIMIT; lia))
    as (_ & Hcalls & Hok & _).
  destruct (Hok ["places/a"; "places/b"]%string eq_refl) as (Hit & Hin & _).
  eexists. split; [exact Hit|]. split; [reflexivity|]. split.
  - apply Hin. apply list_elem_of_In. simpl. auto.
  - exact Hcalls.
Defined.

(** C2 as stated fails twice. A listing call that fails without an HTTP
    status (no response: a timeout, a lost connection) is not answered
    with a split: the pass ends with the exception and the search raises
    it. And a split need not change the region: a box that is a single
    point is its own quadrant, so after a listing call that raised
    [HTTPError] the same region is on the stack again. *)
Lemma listing_timeout_surfaces :
  let svc := Scenario.scripted [Scenario.counted "2"] in
  let st := mk_state [Scenario.city_box] ∅ [] in
  let point := mk_bbox 1%R 1%R 1%R 1%R in
  fst (Insights.aggregate_count_for_bbox svc Scenario.city_box []) = Return 2%Z /\
  fst (Insights.aggregate_places_for_bbox svc Scenario.city_box
         [request_for INSIGHT_COUNT Scenario.city_box]) = Raise RequestFailure /\
  iteration svc st = Propagate RequestFailure /\
  collect_place_ids_for_city 5 Scenario.one_city svc "x" = Some (Raise RequestFailure) /\
  exists st',
    iteration (Scenario.scripted [Scenario.counted "2"; Scenario.failed])
              (mk_state [point] ∅ []) = Next st' /\
    In point (stack st').
Proof.
  cbv zeta. split; [reflexivity|]. split; [reflexivity|]. split; [reflexivity|].
  split; [reflexivity|].
  eexists. split; [reflexivity|].
  cbn [stack app split_bbox]. left. f_equal; cbn [top bottom left right]; lra.
Qed.

(** A pass that ends normally is followed by the rest of the loop. *)
Lemma while_stack_step fuel svc st st' :
  stack st <> [] ->
  iteration svc st = Next st' ->
  while_stack (S fuel) svc st = while_stack fuel svc st'.
Proof.
  intros Hne Hit.
  change (while_stack (S fuel) svc st)
    with (match stack st with
          | [] => Some (Return st)
          | _ :: _ =>
              match iteration svc st with
              | Next st1 => while_stack fuel svc st1
              | Propagate e => Some (Raise e)
              end
          end).
  rewrite Hit. destruct (stack st); congruence.
Qed.

(** C3, as the code has it. In a pass whose count call raises
    [HTTPError]: with fewer than 2048 boxes left on the stack the four
    quadrants of the box are pushed; with 2048 or more the box is
    dropped; either way the pass ends normally, the set of names is
    unchanged and the loop goes on with the next pass, so the exception
    does not leave the function. In a pass whose count call raises
    anything else, the pass ends with that exception and the loop raises
    it. *)
Theorem count_failure_recovery svc st stack1 box e :
  stack st = stack1 ++ [box] ->
  fst (Insights.aggregate_count_for_bbox svc box (sent st)) = Raise e ->
  let sent1 := sent st ++ [request_for INSIGHT_COUNT box] in
  (e = HTTPError ->
     (length stack1 < 2048 ->
        iteration svc st = Next (mk_state (stack1 ++ split_bbox box) (ids st) sent1)) /\
     (2048 <= length stack1 ->
        iteration svc st = Next (mk_state stack1 (ids st) sent1)) /\
     (forall e', iteration svc st <> Propagate e') /\
     (forall fuel, exists st',
        iteration svc st = Next st' /\ ids st' = ids st /\
        while_stack (S fuel) svc st = while_stack fuel svc st')) /\
  (e <> HTTPError ->
     iteration svc st = Propagate e /\
     forall fuel, while_stack (S fuel) svc st = Some (Raise e)).
Proof.
  intros Hstack H sent1.
  assert (Hne : stack st <> []) by (rewrite Hstack; destruct stack1; discriminate).
  split.
  - intros ->.
    pose proof (pass_count_http_error svc st stack1 box Hstack H) as Hit.
    split; [|split; [|split]].
    + intros Hlen. rewrite Hit.
      destruct (Nat.ltb_spec (length stack1) 2048); [reflexivity | lia].
    + intros Hlen. rewrite Hit.
      destruct (Nat.ltb_spec (length stack1) 2048); [lia | reflexivity].
    + intros e'. rewrite Hit. discriminate.
    + intros fuel. eexists. split; [exact Hit|]. split; [reflexivity|].
      apply while_stack_step; [exact Hne | exact Hit].
  - intros He.
    pose proof (pass_count_other_error svc st stack1 box e Hstack H He) as Hit.
    split; [exact Hit|]. intros fuel. exact (while_stack_propagate fuel svc st e Hne Hit).
Qed.

Lemma count_failure_recovery_witness :
  let svc := Scenario.scripted [Scenario.failed] in
  let st := mk_state [Scenario.city_box] ∅ [] in
  fst (Insights.aggregate_count_for_bbox svc Scenario.city_box (sent st)) = Raise HTTPError /\
  iteration svc st
  = Next (mk_state (split_bbox Scenario.city_box) ∅
                   [request_for INSIGHT_COUNT Scenario.city_box]).
Proof.
  split; [reflexivity|].
  refine (proj1 (proj1 (count_failure_recovery
                   (Scenario.scripted [Scenario.failed])
                   (mk_state [Scenario.city_box] ∅ []) [] Scenario.city_box HTTPError
                   eq_refl eq_refl) eq_refl) _).
  simpl. lia.
Defined.

(** C3 as stated fails: a count call that fails without an HTTP status
    (no response: a timeout, a lost connection) is not answered with a
    split or a drop; the pass ends with the exception and
    [collect_place_ids_for_city] raises it to its caller. *)
Lemma count_timeout_surfaces :
  let svc := Scenario.always NoResponse in
  let st := mk_state [Scenario.city_box] ∅ [] in
  fst (Insights.aggregate_count_for_bbox svc Scenario.city_box []) = Raise RequestFailure /\
  iteration svc st = Propagate RequestFailure /\
  (forall st', iteration svc st <> Next st') /\
  collect_place_ids_for_city 5 Scenario.one_city svc "x" = Some (Raise RequestFailure).
Proof.
  cbv zeta. split; [reflexivity|]. split; [reflexivity|].
  split; [discriminate | reflexivity].
Qed.

(** C9. The bound 2048 on the length of the stack is tested only where
    the count call raised [HTTPError], and there on the stack as the pop
    left it, before the quadrants are pushed. Where the listing call
    raised [HTTPError] and where the count is above [COUNT_LIMIT], the
    quadrants are pushed whatever the length. So the stack can grow past
    2048: a push onto 2047 boxes leaves 2051, and the unguarded pushes add
    four boxes to a stack of any length. *)
Theorem ceiling_guards_count_failure_only svc st stack1 box :
  stack st = stack1 ++ [box] ->
  let count_call := fst (Insights.aggregate_count_for_bbox svc box (sent st)) in
  let sent1 := sent st ++ [request_for INSIGHT_COUNT box] in
  let listing_call := fst (Insights.aggregate_places_for_bbox svc box sent1) in
  let sent2 := sent1 ++ [request_for INSIGHT_PLACES box] in
  (count_call = Raise HTTPError ->
     iteration svc st
     = Next (mk_state (if (length stack1 <? 2048)%nat
                       then stack1 ++ split_bbox box else stack1)
                      (ids st) sent1)) /\
  (forall cnt, count_call = Return cnt -> cnt <> 0%Z -> (cnt <= COUNT_LIMIT)%Z ->
     listing_call = Raise HTTPError ->
     iteration svc st = Next (mk_state (stack1 ++ split_bbox box) (ids st) sent2) /\
     length (stack1 ++ split_bbox box) = length stack1 + 4) /\
  (forall cnt, count_call = Return cnt -> (COUNT_LIMIT < cnt)%Z ->
     iteration svc st = Next (mk_state (stack1 ++ split_bbox box) (ids st) sent1) /\
     length (stack1 ++ split_bbox box) = length stack1 + 4) /\
  (length stack1 = 2047 -> count_call = Raise HTTPError ->
     exists st', iteration svc st = Next st' /\ length (stack st') = 2051).
Proof.
  intros Hstack count_call sent1 listing_call sent2.
  split; [|split; [|split]].
  - exact (pass_count_http_error svc st stack1 box Hstack).
  - intros cnt H Hz Hc Hl. split.
    + exact (pass_listing_http_error svc st stack1 box Hstack cnt H Hz Hc Hl).
    + rewrite length_app. reflexivity.
  - intros cnt H Hc. split.
    + exact (pass_count_over svc st stack1 box Hstack cnt H Hc).
    + rewrite length_app. reflexivity.
  - intros Hlen H. eexists. split.
    + exact (pass_count_http_error svc st stack1 box Hstack H).
    + cbn [stack]. rewrite Hlen. cbn [Nat.ltb Nat.leb].
      rewrite length_app, Hlen. reflexivity.
Qed.

Lemma ceiling_guards_count_failure_only_witness :
  let svc := Scenario.always Scenario.failed in
  let st := mk_state Scenario.full_stack ∅ [] in
  length (stack st) = 2048 /\
  exists st', iteration svc st = Next st' /\ length (stack st') = 2051.
Proof.
  split; [reflexivity|].
  refine (proj2 (proj2 (proj2
    (ceiling_guards_count_failure_only
       (Scenario.always Scenario.failed)
       (mk_state Scenario.full_stack ∅ [])
       (repeat Scenario.city_box 2047) Scenario.city_box eq_refl))) _ _);
    reflexivity.
Defined.

(** ** Replies with absent fields *)

Lemma aggregate_count_no_count svc box log status body :
  (status < 400 \/ 600 <= status)%Z ->
  svc log (request_for INSIGHT_COUNT box) = Response status (Some body) ->
  count body = None ->
  Insights.aggregate_count_for_bbox svc box log
  = (Return 0%Z, log ++ [request_for INSIGHT_COUNT box]).
Proof.
  intros Hst Hsvc Hc. rewrite aggregate_count_eq, Hsvc. f_equal.
  cbn [Http.request mbind result_bind].
  rewrite raise_for_status_ok by exact Hst.
  cbn [mbind result_bind Http.json snd]. rewrite Hc. reflexivity.
Qed.

Lemma aggregate_places_no_places svc box log status body :
  (status < 400 \/ 600 <= status)%Z ->
  svc log (request_for INSIGHT_PLACES box) = Response status (Some body) ->
  places body = None ->
  Insights.aggregate_places_for_bbox svc box log
  = (Return [], log ++ [request_for INSIGHT_PLACES box]).
Proof.
  intros Hst Hsvc Hp. rewrite aggregate_places_eq, Hsvc. f_equal.
  cbn [Http.request mbind result_bind].
  rewrite raise_for_status_ok by exact Hst.
  cbn [mbind result_bind Http.json snd]. rewrite Hp. reflexivity.
Qed.

(** C10. A reply to the count request whose status is not an error and
    whose body has no ["count"] is read as the count 0, and the pass
    drops the box with the count request as its only request: no listing
    request, no quadrants pushed. A reply to the listing request with no
    ["places"] gives no names. An entry of ["places"] with neither a
    ["name"] nor an ["id"] adds no name. *)
Theorem absent_fields_read_as_empty svc st stack1 box status body :
  stack st = stack1 ++ [box] ->
  (status < 400 \/ 600 <= status)%Z ->
  let sent1 := sent st ++ [request_for INSIGHT_COUNT box] in
  (svc (sent st) (request_for INSIGHT_COUNT box) = Response status (Some body) ->
   count body = None ->
     fst (Insights.aggregate_count_for_bbox svc box (sent st)) = Return 0%Z /\
     iteration svc st = Next (mk_state stack1 (ids st) sent1) /\
     calls_of INSIGHT_PLACES sent1 = calls_of INSIGHT_PLACES (sent st)) /\
  (forall log,
     svc log (request_for INSIGHT_PLACES box) = Response status (Some body) ->
     places body = None ->
     fst (Insights.aggregate_places_for_bbox svc box log) = Return []) /\
  (forall ps ps' names,
     Insights.collect_names (ps ++ mk_entry None None :: ps') names
     = Insights.collect_names (ps ++ ps') names).
Proof.
  intros Hstack Hst sent1. split; [|split].
  - intros Hsvc Hc.
    pose proof (aggregate_count_no_count svc box (sent st) status body Hst Hsvc Hc) as E.
    assert (E1 : fst (Insights.aggregate_count_for_bbox svc box (sent st)) = Return 0%Z)
      by (rewrite E; reflexivity).
    split; [exact E1|]. split.
    + exact (pass_count_zero svc st stack1 box Hstack E1).
    + unfold sent1. rewrite calls_of_app. unfold calls_of at 2. simpl. lia.
  - intros log Hsvc Hp.
    rewrite (aggregate_places_no_places svc box log status body Hst Hsvc Hp).
    reflexivity.
  - intros ps ps' names. rewrite !collect_names_app. reflexivity.
Qed.

Lemma absent_fields_read_as_empty_witness :
  let svc := Scenario.always (Response 200 (Some (mk_body None None))) in
  let st := mk_state [Scenario.city_box] ∅ [] in
  iteration svc st
  = Next (mk_state [] ∅ [request_for INSIGHT_COUNT Scenario.city_box]) /\
  fst (Insights.aggregate_places_for_bbox svc Scenario.city_box []) = Return [] /\
  Insights.collect_names
    [Scenario.named "places/a"; mk_entry None None; Scenario.named "places/b"] []
  = ["places/a"; "places/b"]%string.
Proof.
  pose proof (absent_fields_read_as_empty
    (Scenario.always (Response 200 (Some (mk_body None None))))
    (mk_state [Scenario.city_box] ∅ []) [] Scenario.city_box 200%Z (mk_body None None)
    eq_refl ltac:(lia)) as (Hc & Hp & Hs).
  split; [exact (proj1 (proj2 (Hc eq_refl eq_refl)))|].
  split; [exact (Hp [] eq_refl eq_refl)|].
  exact (eq_trans (Hs [Scenario.named "places/a"] [Scenario.named "places/b"] [])
                  eq_refl).
Defined.

(** ** The collected names *)

Lemma sorted_Permutation (s : gset string) : sorted s ≡ₚ elements s.
Proof. unfold sorted. apply merge_sort_Permutation. Qed.

Lemma sorted_NoDup (s : gset string) : NoDup (sorted s).
Proof. rewrite sorted_Permutation. apply NoDup_elements. Qed.

Lemma sorted_StronglySorted (s : gset string) : StronglySorted String.le (sorted s).
Proof. unfold sorted. apply StronglySorted_merge_sort; apply _. Qed.

Lemma elem_of_sorted (s : gset string) (x : string) : x ∈ sorted s <-> x ∈ s.
Proof. rewrite sorted_Permutation. apply elem_of_elements. Qed.

Lemma add_all_Permutation (acc : gset string) (names names' : list string) :
  names ≡ₚ names' -> add_all acc names = add_all acc names'.
Proof.
  intros Hp. apply set_eq. intros x. rewrite !elem_of_add_all, Hp. reflexivity.
Qed.

Lemma add_all_comm (acc : gset string) (names1 names2 : list string) :
  add_all (add_all acc names1) names2 = add_all (add_all acc names2) names1.
Proof. apply set_eq. intros x. rewrite !elem_of_add_all. tauto. Qed.

Lemma filter_eq_absent (n : string) (l : list string) :
  n ∉ l -> filter (fun x => x = n) l = [].
Proof.
  induction l as [|x l IH]; intros Hn; [reflexivity|].
  rewrite filter_cons. apply not_elem_of_cons in Hn as [Hne Hn].
  destruct (decide (x = n)); [congruence | exact (IH Hn)].
Qed.

Lemma occurs_once (n : string) (l : list string) :
  NoDup l -> n ∈ l -> length (filter (fun x => x = n) l) = 1.
Proof.
  induction 1 as [|x l Hx Hnd IH]; intros Hin; [inversion Hin|].
  rewrite filter_cons. destruct (decide (x = n)) as [->|Hne].
  - rewrite filter_eq_absent by exact Hx. reflexivity.
  - apply IH. apply elem_of_cons in Hin as [->|Hin]; [congruence | exact Hin].
Qed.

Lemma collect_returns_sorted fuel geo svc city l :
  collect_place_ids_for_city fuel geo svc city = Some (Return l) ->
  exists st, l = sorted (ids st).
Proof.
  unfold collect_place_ids_for_city.
  destruct (get_city_bbox geo city) as [bbox|e]; [|discriminate].
  destruct (while_stack fuel svc _) as [[st|e]|]; try discriminate.
  intros H. inversion H. exists st. reflexivity.
Qed.

(** C7. The list that [collect_place_ids_for_city] returns has no
    duplicates and is sorted. A name that two listing calls both return
    is in the result once. The result is the same whatever the order in
    which names are merged: within one listing, and between two
    listings. *)
Theorem collected_names_sorted_without_duplicates fuel geo svc city l :
  collect_place_ids_for_city fuel geo svc city = Some (Return l) ->
  NoDup l /\
  StronglySorted String.le l /\
  (forall acc names1 names2 n,
      n ∈ names1 -> n ∈ names2 ->
      let out := sorted (add_all (add_all acc names1) names2) in
      n ∈ out /\ NoDup out /\ length (filter (fun x => x = n) out) = 1) /\
  (forall acc names names',
      names ≡ₚ names' -> sorted (add_all acc names) = sorted (add_all acc names')) /\
  (forall acc names1 names2,
      sorted (add_all (add_all acc names1) names2)
      = sorted (add_all (add_all acc names2) names1)).
Proof.
  intros H. destruct (collect_returns_sorted _ _ _ _ _ H) as [st ->].
  split; [apply sorted_NoDup|]. split; [apply sorted_StronglySorted|].
  split; [|split].
  - intros acc names1 names2 n H1 H2 out.
    assert (Hin : n ∈ out).
    { apply elem_of_sorted, elem_of_add_all. right. exact H2. }
    pose proof (sorted_NoDup (add_all (add_all acc names1) names2)) as Hnd.
    fold out in Hnd.
    split; [exact Hin|]. split; [exact Hnd|].
    apply occurs_once; assumption.
  - intros acc names names' Hp. rewrite (add_all_Permutation acc names names' Hp).
    reflexivity.
  - intros acc names1 names2. rewrite add_all_comm. reflexivity.
Qed.

Lemma collected_names_sorted_without_duplicates_witness :
  collect_place_ids_for_city 9 Scenario.one_city Scenario.overlapping_search "x"
  = Some (Return ["places/a"; "places/b"]%string) /\
  NoDup ["places/a"; "places/b"]%string /\
  StronglySorted String.le ["places/a"; "places/b"]%string.
Proof.
  assert (E : collect_place_ids_for_city 9 Scenario.one_city
                Scenario.overlapping_search "x"
              = Some (Return ["places/a"; "places/b"]%string)) by reflexivity.
  split; [exact E|].
  destruct (collected_names_sorted_without_duplicates _ _ _ _ _ E) as (Hnd & Hs & _).
  split; [exact Hnd | exact Hs].
Defined.

(** ** Hydration *)

Import Hydration.

Section Collect.

Lemma collect_returns futs out0 out :
  collect futs out0 = Return out ->
  exists recs,
    out = out0 ++ recs /\
    Forall2 kept_as (filter (fun f => answered (fst f)) futs) recs /\
    Forall (fun f => exists r, fst f = Return r) futs.
Proof.
  revert out0. induction futs as [|[fut n] futs IH]; intros out0 H.
  - inversion H; subst. exists []. rewrite app_nil_r. repeat constructor.
  - cbn [collect] in H. destruct fut as [data|e]; [|discriminate].
    cbn [mbind result_bind] in H.
    assert (Hhd : exists r, fst (Return data, n) = Return r) by (eexists; reflexivity).
    rewrite filter_cons.
    destruct data as [[|kv d]|]; cbn [answered fst].
    + destruct (IH _ H) as (recs & -> & HF & HA).
      exists recs. destruct (decide _) as [[]|_]. auto using Forall_cons_2.
    + destruct (normalize (kv :: d)) as [p|e] eqn:En; [|discriminate].
      cbn [mbind result_bind] in H.
      destruct (IH _ H) as (recs & -> & HF & HA).
      exists (p :: recs). rewrite <- app_assoc.
      split; [reflexivity|]. split; [|auto using Forall_cons_2].
      destruct (decide _) as [_|Hn]; [|destruct Hn; exact I].
      constructor; [|exact HF].
      exists (kv :: d). split; [reflexivity|]. split; [discriminate | exact En].
    + destruct (IH _ H) as (recs & -> & HF & HA).
      exists recs. destruct (decide _) as [[]|_]. auto using Forall_cons_2.
Qed.

Lemma collect_total futs out0 :
  Forall (fun f => exists r, fst f = Return r /\
                   forall d, r = Some d -> d <> [] -> exists p, normalize d = Return p) futs ->
  exists out, collect futs out0 = Return out.
Proof.
  intros HF. revert out0. induction HF as [|[fut n] futs (r & Hr & Hn) HF IH]; intros out0.
  - eexists; reflexivity.
  - cbn [fst] in Hr. subst fut. cbn [collect mbind result_bind].
    destruct r as [[|kv d]|]; [apply IH| |apply IH].
    destruct (Hn (kv :: d) eq_refl) as [p ->]; [discriminate|].
    cbn [mbind result_bind]. apply IH.
Qed.

End Collect.

Section Hydrate.

Variable as_completed : forall A : Type, list A -> list A.
Hypothesis as_completed_perm : forall (A : Type) (l : list A), as_completed A l ≡ₚ l.
Variable svc : details_service.

Local Abbreviation submit := (fun n : string => (place_details svc n, n)).

Lemma submitted (names : list string) :
  Forall (fun f => fst f = place_details svc (snd f)) (as_completed _ (map submit names)).
Proof.
  rewrite as_completed_perm. apply Forall_forall. intros f Hf.
  apply list_elem_of_fmap in Hf as (n & -> & _). reflexivity.
Qed.

Lemma kept_names (names : list string) :
  map snd (filter (fun f => answered (fst f)) (as_completed _ (map submit names)))
  ≡ₚ filter (fun n => answered (place_details svc n)) names.
Proof.
  rewrite as_completed_perm.
  induction names as [|n names IH]; [reflexivity|].
  cbn [map]. rewrite !filter_cons. cbn [fst].
  destruct (decide (answered (place_details svc n))); cbn [map snd]; rewrite IH; reflexivity.
Qed.

Lemma hydrate_places_returns names out :
  hydrate_places as_completed svc names = Return out ->
  exists kept : list string,
    kept ≡ₚ filter (fun n => answered (place_details svc n)) names /\
    Forall2 (fun n p => exists d, place_details svc n = Return (Some d) /\
                                  d <> [] /\ normalize d = Return p) kept out /\
    forall n, n ∈ names -> exists r, place_details svc n = Return r.
Proof.
  unfold hydrate_places. intros H.
  destruct (collect_returns _ _ _ H) as (recs & -> & HF & HA).
  cbn [app].
  exists (map snd (filter (fun f => answered (fst f)) (as_completed _ (map submit names)))).
  split; [apply kept_names|]. split.
  - apply Forall2_fmap_l.
    pose proof (submitted names) as Hs.
    assert (Hs' : Forall (fun f => fst f = place_details svc (snd f))
                    (filter (fun f => answered (fst f))
                            (as_completed _ (map submit names)))).
    { rewrite Forall_forall in Hs. apply Forall_forall. intros f Hf.
      apply list_elem_of_filter in Hf as [_ Hf]. exact (Hs f Hf). }
    clear Hs H HA. rename Hs' into Hs.
    revert HF Hs. generalize (filter (fun f => answered (fst f))
                                     (as_completed _ (map submit names))).
    intros l HF. induction HF as [|f p l recs (d & Hd & Hne & Hn) HF IH]; intros Hs.
    + constructor.
    + apply Forall_cons in Hs as [Hf Hs].
      constructor; [|exact (IH Hs)].
      exists d. rewrite <- Hf. auto.
  - intros n Hn. rewrite as_completed_perm in HA.
    rewrite Forall_forall in HA.
    apply (HA (submit n)). apply list_elem_of_fmap. exists n. auto.
Qed.

End Hydrate.

(** C4, as the code has it. Whatever the order in which the lookups
    finish: when [hydrate_places] returns, its output is no longer than
    its input and holds, for exactly the names whose lookup gave a
    non-empty record, one normalized record each; a name whose lookup
    gave a 404 is not among them. A lookup that raises is not dropped: it
    makes [hydrate_places] raise. And [hydrate_places] does return when
    every lookup returns and every record normalizes. *)
Theorem hydrate_places_drops_only_not_found
    (as_completed : forall A : Type, list A -> list A)
    (svc : details_service) (names : list string) :
  (forall (A : Type) (l : list A), as_completed A l ≡ₚ l) ->
  (forall out,
     hydrate_places as_completed svc names = Return out ->
     length out <= length names /\
     exists kept : list string,
       kept ≡ₚ filter (fun n => answered (place_details svc n)) names /\
       Forall2 (fun n p => exists d, place_details svc n = Return (Some d) /\
                                     d <> [] /\ normalize d = Return p) kept out /\
       (forall n, place_details svc n = Return None -> n ∉ kept) /\
       (forall n, n ∈ names -> answered (place_details svc n) -> n ∈ kept) /\
       (NoDup names -> NoDup kept)) /\
  (forall n e,
     n ∈ names -> place_details svc n = Raise e ->
     exists e', hydrate_places as_completed svc names = Raise e') /\
  ((forall n, n ∈ names ->
      exists r, place_details svc n = Return r /\
                forall d, r = Some d -> d <> [] -> exists p, normalize d = Return p) ->
   exists out, hydrate_places as_completed svc names = Return out).
Proof.
  intros Hperm. split; [|split].
  - intros out H.
    destruct (hydrate_places_returns as_completed Hperm svc names out H)
      as (kept & Hk & HF & _).
    split.
    { rewrite <- (Forall2_length _ _ _ HF), Hk. apply length_filter. }
    exists kept. split; [exact Hk|]. split; [exact HF|]. split; [|split].
    + intros n Hn Hin. rewrite Hk in Hin.
      apply list_elem_of_filter in Hin as [Ha _]. rewrite Hn in Ha. exact Ha.
    + intros n Hn Ha. rewrite Hk. apply list_elem_of_filter. auto.
    + intros Hnd. rewrite Hk. apply NoDup_filter. exact Hnd.
  - intros n e Hn He.
    destruct (hydrate_places as_completed svc names) as [out|e'] eqn:H; [|eauto].
    destruct (hydrate_places_returns as_completed Hperm svc names out H)
      as (_ & _ & _ & Hall).
    destruct (Hall n Hn) as [r Hr]. congruence.
  - intros Hall. unfold hydrate_places. apply collect_total.
    rewrite Hperm. apply Forall_forall. intros f Hf.
    apply list_elem_of_fmap in Hf as (n & -> & Hn). exact (Hall n Hn).
Qed.

Lemma hydrate_places_drops_only_not_found_witness :
  (forall (A : Type) (l : list A), Scenario.reversed A l ≡ₚ l) /\
  exists p,
    hydrate_places Scenario.reversed Scenario.details ["places/a"; "places/gone"]%string
    = Return [p] /\
    Hydration.id p = JStr "a" /\ Hydration.name p = JStr "A".
Proof.
  assert (Hperm : forall (A : Type) (l : list A), Scenario.reversed A l ≡ₚ l).
  { intros A l. unfold Scenario.reversed. symmetry. apply Permutation_rev. }
  split; [exact Hperm|].
  destruct (proj2 (proj2 (hydrate_places_drops_only_not_found
                            Scenario.reversed Scenario.details
                            ["places/a"; "places/gone"]%string Hperm)))
    as [out Hout].
  - intros n Hn.
    apply elem_of_cons in Hn as [->|Hn];
      [|apply elem_of_cons in Hn as [->|Hn]; [|inversion Hn]].
    + eexists. split; [reflexivity|]. intros d Hd _. inversion Hd; subst.
      eexists. reflexivity.
    + exists None. split; [reflexivity|]. discriminate.
  - eexists. split; [reflexivity|]. split; reflexivity.
Defined.

(** C4 as stated fails: a lookup that ends in an HTTP 500 is not dropped
    like a 404; it makes the whole of [hydrate_places] raise, although
    the other name has a record. *)
Lemma failed_lookup_fails_the_batch :
  place_details Scenario.details "places/a" <> Return None /\
  place_details Scenario.details "places/b" = Raise HTTPError /\
  hydrate_places Scenario.in_order Scenario.details ["places/a"; "places/b"]%string
  = Raise HTTPError /\
  ~ drops_failed_lookups Scenario.in_order Scenario.details
      ["places/a"; "places/b"]%string.
Proof.
  split; [discriminate|]. split; [reflexivity|]. split; [reflexivity|].
  intros (out & H & _). discriminate H.
Qed.

(** * Further properties *)

(** ** Boxes, quadrants and circles *)

Local Open Scope R_scope.

(** X1. The circle of [bbox_center_radius_m] covers the box: measured
    with the same approximation (at the centre latitude), no point of the
    box is farther from the centre than the radius. *)
Theorem covering_circle_contains_box (b : bbox) (p : point) :
  covers b p ->
  equirect_dist (fst (Quadrants.center b)) p (Quadrants.center b)
  <= snd (bbox_center_radius_m b).
Proof. intros Hp. exact (covering_circle_covers b p Hp). Qed.

Lemma covering_circle_contains_box_witness :
  covers Scenario.city_box (2, 4) /\
  equirect_dist (fst (Quadrants.center Scenario.city_box)) (2, 4)
                (Quadrants.center Scenario.city_box)
  <= snd (bbox_center_radius_m Scenario.city_box).
Proof.
  assert (Hp : covers Scenario.city_box (2, 4))
    by (unfold covers, Scenario.city_box; simpl; lra).
  split; [exact Hp | exact (covering_circle_contains_box _ _ Hp)].
Defined.

(** X2. The four quadrants of a box with north ≥ south and east ≥ west
    meet at the centre that [bbox_center_radius_m] computes: the centre
    is a point of the box and of each of its quadrants. *)
Theorem quadrants_meet_at_center (b : bbox) :
  well_formed b ->
  covers b (Quadrants.center b) /\
  Forall (fun q => covers q (Quadrants.center b)) (split_bbox b).
Proof.
  intros [Hlat Hlng]. unfold Quadrants.center, bbox_center_radius_m, split_bbox.
  cbv zeta. cbn [fst snd]. split.
  - unfold covers. cbn [fst snd]. lra.
  - repeat first [apply List.Forall_cons | apply List.Forall_nil];
      unfold covers; cbn [fst snd top bottom left right]; lra.
Qed.

Lemma quadrants_meet_at_center_witness :
  well_formed Scenario.city_box /\
  Forall (fun q => covers q (Quadrants.center Scenario.city_box))
         (split_bbox Scenario.city_box).
Proof.
  assert (Hwf : well_formed Scenario.city_box)
    by (unfold well_formed, Scenario.city_box; simpl; lra).
  split; [exact Hwf | exact (proj2 (quadrants_meet_at_center _ Hwf))].
Defined.

Local Close Scope R_scope.

(** ** Outcomes of the service calls *)

Lemma int_raises_ValueError (s : string) (e : exn) :
  PyInt.int s = Raise e -> e = ValueError.
Proof.
  unfold PyInt.int.
  destruct (match PyInt.rstrip (PyInt.lstrip s) with
            | String "-"%char r => Z.opp <$> PyInt.digits 0 false r
            | String "+"%char r => PyInt.digits 0 false r
            | r => PyInt.digits 0 false r
            end); intros H; inversion H; reflexivity.
Qed.

Lemma raise_for_status_cases {B : Type} (status : Z) (body : option B) :
  ((400 <= status < 600)%Z /\ Http.raise_for_status (status, body) = Raise HTTPError) \/
  (~ (400 <= status < 600)%Z /\ Http.raise_for_status (status, body) = Return tt).
Proof.
  unfold Http.raise_for_status. cbn [fst].
  destruct (Z.leb_spec 400 status), (Z.ltb_spec status 600); cbn [andb];
    [left | right | right | right]; split; try reflexivity; lia.
Qed.

(** X5. How [aggregate_count_for_bbox] ends on what the transport
    delivers. It raises [HTTPError] exactly when the service answers with
    a status from 400 to 599, a transport failure exactly when there is
    no answer, and a decoding error exactly when the answer has another
    status and a body that is not JSON. It returns a count only for an
    answer with a status outside 400..599, whose ["count"] (or ["0"] in
    its absence) reads as that number. *)
Theorem aggregate_count_outcomes svc box log :
  let reply := svc log (request_for INSIGHT_COUNT box) in
  let outcome := fst (Insights.aggregate_count_for_bbox svc box log) in
  (outcome = Raise HTTPError <->
     exists status body, reply = Response status body /\ (400 <= status < 600)%Z) /\
  (outcome = Raise RequestFailure <-> reply = NoResponse) /\
  (outcome = Raise JSONDecodeError <->
     exists status, reply = Response status None /\ ~ (400 <= status < 600)%Z) /\
  (forall cnt, outcome = Return cnt ->
     exists status data,
       reply = Response status (Some data) /\ ~ (400 <= status < 600)%Z /\
       PyInt.int (default "0"%string (count data)) = Return cnt).
Proof.
  intros reply outcome. subst outcome. rewrite aggregate_count_eq. cbn [fst].
  fold reply. destruct reply as [status body|]; cbn [Http.request mbind result_bind].
  - destruct (raise_for_status_cases status body) as [[Hs ->]|[Hs ->]];
      cbn [mbind result_bind].
    + split; [split; [eauto | reflexivity]|].
      split; [split; discriminate|]. split; [|discriminate].
      split; [discriminate|]. intros (st & E & Hst). inversion E; subst. contradiction.
    + destruct body as [data|]; cbn [Http.json snd mbind result_bind].
      * split; [split|].
        { intros H. apply int_raises_ValueError in H. discriminate. }
        { intros (st & bd & E & Hst). inversion E; subst. contradiction. }
        split; [split; [|discriminate]|].
        { intros H. apply int_raises_ValueError in H. discriminate. }
        split; [split|].
        { intros H. apply int_raises_ValueError in H. discriminate. }
        { intros (st & E & _). discriminate. }
        intros cnt H. eauto.
      * split; [split; [discriminate|]|].
        { intros (st & bd & E & Hst). inversion E; subst. contradiction. }
        split; [split; discriminate|]. split; [|discriminate].
        split; [eauto | reflexivity].
  - split; [split; [discriminate|]|].
    { intros (st & bd & E & _). discriminate. }
    split; [split; reflexivity|]. split; [|discriminate].
    split; [discriminate|]. intros (st & E & _). discriminate.
Qed.

Lemma collect_names_acc ps names :
  Insights.collect_names ps names = names ++ Insights.collect_names ps [].
Proof.
  revert names. induction ps as [|p ps IH]; intros names; cbn [Insights.collect_names].
  - rewrite app_nil_r. reflexivity.
  - destruct (py_or (entry_name p) (entry_id p)) as [n|]; [|apply IH].
    destruct (truthy_str (Some n)); [|apply IH].
    rewrite (IH (names ++ [n])), (IH ([] ++ [n])), <- app_assoc. reflexivity.
Qed.

(** What one entry contributes. *)
Lemma collect_names_cons p ps :
  Insights.collect_names (p :: ps) []
  = match py_or (entry_name p) (entry_id p) with
    | Some (String c s) => String c s :: Insights.collect_names ps []
    | _ => Insights.collect_names ps []
    end.
Proof.
  cbn [Insights.collect_names].
  destruct (py_or (entry_name p) (entry_id p)) as [[|c s]|]; cbn [truthy_str];
    try reflexivity.
  rewrite collect_names_acc. reflexivity.
Qed.

(** X6. The names that [aggregate_places_for_bbox] returns: there are no
    more of them than entries in ["places"]; none is the empty string;
    each is the ["name"] of an entry, or the ["id"] of an entry whose
    ["name"] is absent or empty. *)
Theorem listed_names_come_from_entries svc box log names :
  fst (Insights.aggregate_places_for_bbox svc box log) = Return names ->
  exists status data,
    svc log (request_for INSIGHT_PLACES box) = Response status (Some data) /\
    length names <= length (default [] (places data)) /\
    Forall (fun n =>
              n <> ""%string /\
              exists p, In p (default [] (places data)) /\
                        (entry_name p = Some n \/
                         (truthy_str (entry_name p) = false /\ entry_id p = Some n)))
           names.
Proof.
  rewrite aggregate_places_eq. cbn [fst].
  destruct (svc log (request_for INSIGHT_PLACES box)) as [status body|];
    cbn [Http.request mbind result_bind]; [|discriminate].
  destruct (raise_for_status_cases status body) as [[Hs ->]|[Hs ->]];
    cbn [mbind result_bind]; [discriminate|].
  destruct body as [data|]; cbn [Http.json snd mbind result_bind]; [|discriminate].
  intros H. inversion H as [Hn]. clear H. exists status, data.
  split; [reflexivity|].
  generalize (default [] (places data)). intros ps.
  induction ps as [|p ps [IHlen IHall]].
  - split; [reflexivity | constructor].
  - rewrite collect_names_cons. unfold py_or.
    assert (Hmono : Forall (fun n =>
              n <> ""%string /\
              exists p0, In p0 (p :: ps) /\
                        (entry_name p0 = Some n \/
                         (truthy_str (entry_name p0) = false /\ entry_id p0 = Some n)))
              (Insights.collect_names ps [])).
    { eapply List.Forall_impl; [|exact IHall].
      intros n (Hne & q & Hq & Hc). split; [exact Hne|]. exists q. simpl. auto. }
    destruct (truthy_str (entry_name p)) eqn:Ht.
    + destruct (entry_name p) as [[|c s]|] eqn:En; try discriminate.
      split; [simpl; lia|]. constructor; [|exact Hmono].
      split; [discriminate|]. exists p. simpl. auto.
    + destruct (entry_id p) as [[|c s]|] eqn:Ei.
      * split; [simpl; lia | exact Hmono].
      * split; [simpl; lia|]. constructor; [|exact Hmono].
        split; [discriminate|]. exists p. simpl. auto.
      * split; [simpl; lia | exact Hmono].
Qed.

Lemma listed_names_come_from_entries_witness :
  let svc := Scenario.always
               (Scenario.listed [mk_entry (Some ""%string) (Some "places/b"%string);
                                 mk_entry None None;
                                 Scenario.named "places/a"]) in
  fst (Insights.aggregate_places_for_bbox svc Scenario.city_box [])
  = Return ["places/b"; "places/a"]%string /\
  Forall (fun n => n <> ""%string) ["places/b"; "places/a"]%string.
Proof.
  split; [reflexivity|].
  destruct (listed_names_come_from_entries
              (Scenario.always
                 (Scenario.listed [mk_entry (Some ""%string) (Some "places/b"%string);
                                   mk_entry None None;
                                   Scenario.named "places/a"]))
              Scenario.city_box [] ["places/b"; "places/a"]%string eq_refl)
    as (status & data & _ & _ & Hall).
  eapply List.Forall_impl; [|exact Hall]. intros n [Hne _]. exact Hne.
Defined.

(** X7. How [place_details] ends on what the transport delivers. A
    status of 404 gives [None], whatever the body. It raises [HTTPError]
    exactly for the other statuses from 400 to 599. It returns a record
    exactly for an answer with a status outside 400..599 whose body is
    that record. *)
Theorem place_details_outcomes svc n :
  ((exists body, svc n = Response 404 body) ->
     Hydration.place_details svc n = Return None) /\
  (Hydration.place_details svc n = Raise HTTPError <->
     exists status body, svc n = Response status body /\
                         (400 <= status < 600)%Z /\ status <> 404%Z) /\
  (forall data, Hydration.place_details svc n = Return (Some data) <->
     exists status, svc n = Response status (Some data) /\ ~ (400 <= status < 600)%Z).
Proof.
  unfold Hydration.place_details.
  destruct (svc n) as [status body|]; cbn [Http.request mbind result_bind fst].
  - destruct (Z.eqb_spec status 404) as [->|Hne].
    + split; [reflexivity|]. split.
      * split; [discriminate|]. intros (st & bd & E & _ & Hst).
        inversion E; subst. contradiction.
      * intros data. split; [discriminate|]. intros (st & E & Hst).
        inversion E; subst. lia.
    + destruct (raise_for_status_cases status body) as [[Hs ->]|[Hs ->]];
        cbn [mbind result_bind].
      * split.
        { intros (bd & E). inversion E; subst. contradiction. }
        split; [split; [eauto 6 | reflexivity]|].
        intros data. split; [discriminate|]. intros (st & E & Hst).
        inversion E; subst. contradiction.
      * destruct body as [d|]; cbn [Http.json snd mbind result_bind].
        -- split.
           { intros (bd & E). inversion E; subst. contradiction. }
           split; [split; [discriminate|]|].
           { intros (st & bd & E & Hst & _). inversion E; subst. contradiction. }
           intros data. split.
           ++ intros H. inversion H; subst. eauto.
           ++ intros (st & E & _). inversion E; subst. reflexivity.
        -- split.
           { intros (bd & E). inversion E; subst. contradiction. }
           split; [split; [discriminate|]|].
           { intros (st & bd & E & Hst & _). inversion E; subst. contradiction. }
           intros data. split; [discriminate|]. intros (st & E & _). discriminate.
  - split; [intros (bd & E); discriminate|].
    split; [split; [discriminate|intros (st & bd & E & _); discriminate]|].
    intros data. split; [discriminate|intros (st & E & _); discriminate].
Qed.

(** ** The worklist loop as a whole *)

Lemma stack_last (l : list bbox) : l <> [] -> exists l' box, l = l' ++ [box].
Proof.
  intros Hne. destruct (exists_last Hne) as (l' & box & E). eauto.
Qed.

Lemma pass_shape svc st st' :
  iteration svc st = Next st' ->
  exists stack1 box,
    stack st = stack1 ++ [box] /\
    (stack st' = stack1 \/ stack st' = stack1 ++ split_bbox box) /\
    ids st ⊆ ids st' /\
    (sent st' = sent st ++ [request_for INSIGHT_COUNT box] \/
     sent st' = sent st ++ [request_for INSIGHT_COUNT box;
                            request_for INSIGHT_PLACES box]).
Proof.
  unfold iteration. destruct (pop (stack st)) as [[stack1 box]|] eqn:Hpop;
    [|discriminate].
  apply pop_Some in Hpop. rewrite aggregate_count_eq.
  set (r := mbind _ _). clearbody r. destruct r as [cnt|e].
  - destruct (cnt =? 0)%Z.
    + intros H. inversion H; subst. exists stack1, box. cbn [stack ids sent]. auto.
    + destruct (cnt <=? COUNT_LIMIT)%Z.
      * rewrite aggregate_places_eq. set (r2 := mbind _ _).
        clearbody r2. destruct r2 as [names|e].
        -- intros H. inversion H; subst. exists stack1, box. cbn [stack ids sent].
           rewrite <- app_assoc. split; [exact Hpop|]. split; [auto|].
           split; [|auto]. intros x Hx. apply elem_of_add_all. auto.
        -- destruct e; intros H; inversion H; subst. exists stack1, box.
           cbn [stack ids sent]. rewrite <- app_assoc. auto.
      * intros H. inversion H; subst. exists stack1, box. cbn [stack ids sent]. auto.
  - destruct e; intros H; try discriminate.
    destruct (length stack1 <? 2048)%nat; inversion H; subst;
      exists stack1, box; cbn [stack ids sent]; auto.
Qed.

(** X8. What a pass that ends normally does: it takes the last box off
    the stack and either leaves the rest as it is or appends the four
    quadrants of that box; it sends the count request for the box and
    then at most the listing request for the same box; it removes no
    name from the set. *)
Theorem pass_footprint svc st st' :
  iteration svc st = Next st' ->
  exists stack1 box,
    stack st = stack1 ++ [box] /\
    (stack st' = stack1 \/ stack st' = stack1 ++ split_bbox box) /\
    ids st ⊆ ids st' /\
    (sent st' = sent st ++ [request_for INSIGHT_COUNT box] \/
     sent st' = sent st ++ [request_for INSIGHT_COUNT box;
                            request_for INSIGHT_PLACES box]).
Proof. apply pass_shape. Qed.

Lemma pass_footprint_witness :
  let svc := Scenario.scripted [Scenario.counted "250"] in
  let st := mk_state [Scenario.city_box] ∅ [] in
  let st' := mk_state (split_bbox Scenario.city_box) ∅
                      [request_for INSIGHT_COUNT Scenario.city_box] in
  iteration svc st = Next st' /\
  exists stack1 box,
    stack st = stack1 ++ [box] /\
    (stack st' = stack1 \/ stack st' = stack1 ++ split_bbox box) /\
    ids st ⊆ ids st' /\
    (sent st' = sent st ++ [request_for INSIGHT_COUNT box] \/
     sent st' = sent st ++ [request_for INSIGHT_COUNT box;
                            request_for INSIGHT_PLACES box]).
Proof.
  split; [reflexivity|].
  exact (pass_footprint (Scenario.scripted [Scenario.counted "250"])
           (mk_state [Scenario.city_box] ∅ []) _ eq_refl).
Defined.

(** A property that every pass keeps holds after any number of passes. *)
Lemma passes_invariant (P : state -> Prop) svc :
  (forall st st', P st -> iteration svc st = Next st' -> P st') ->
  forall n st st', P st -> Run.passes n svc st = Next st' -> P st'.
Proof.
  intros Hstep. induction n as [|n IH]; intros st st' HP H; cbn [Run.passes] in H.
  - inversion H; subst. exact HP.
  - destruct (iteration svc st) as [st1|e] eqn:Hit; [|discriminate].
    exact (IH st1 st' (Hstep st st1 HP Hit) H).
Qed.

(** A loop that ends has made some number of passes, within its bound,
    and has emptied the stack. *)
Lemma while_stack_passes fuel svc st st' :
  while_stack fuel svc st = Some (Return st') ->
  exists n, n <= fuel /\ Run.passes n svc st = Next st' /\ stack st' = [].
Proof.
  revert st. induction fuel as [|fuel IH]; intros st H.
  - cbn [while_stack] in H. destruct (stack st) eqn:Hs; [|discriminate].
    inversion H; subst. exists 0. auto.
  - destruct (stack st) as [|b l] eqn:Hs.
    + cbn [while_stack] in H. rewrite Hs in H. inversion H; subst.
      exists 0. split; [lia|]. auto.
    + cbn [while_stack] in H. rewrite Hs in H.
      destruct (iteration svc st) as [st1|e] eqn:Hit; [|discriminate].
      destruct (IH st1 H) as (n & Hn & Hp & He).
      exists (S n). split; [lia|]. split; [|exact He].
      cbn [Run.passes]. rewrite Hit. exact Hp.
Qed.

Lemma within_trans (a b c : bbox) : within a b -> within b c -> within a c.
Proof. unfold within. intros. lra. Qed.

(** X9. The search never leaves the box it started from: if every box
    on the stack has north ≥ south and east ≥ west and lies within a box
    [root], the same holds after any number of passes. *)
Theorem stack_stays_within_root svc root n st st' :
  Forall (fun q => well_formed q /\ within q root) (stack st) ->
  Run.passes n svc st = Next st' ->
  Forall (fun q => well_formed q /\ within q root) (stack st').
Proof.
  apply (passes_invariant
           (fun s => Forall (fun q => well_formed q /\ within q root) (stack s))).
  clear. intros st st' HP Hit.
  destruct (pass_shape svc st st' Hit) as (stack1 & box & Hs & Hst & _).
  rewrite Hs in HP. apply Forall_app in HP as [H1 Hb].
  apply Forall_cons in Hb as [[Hwf Hin] _].
  destruct Hst as [->| ->]; [exact H1|].
  apply Forall_app. split; [exact H1|].
  eapply List.Forall_impl; [|exact (split_bbox_children box Hwf)].
  intros q [Hq Hqb]. split; [exact Hq | exact (within_trans _ _ _ Hqb Hin)].
Qed.

Lemma stack_stays_within_root_witness :
  let st := mk_state [Scenario.city_box] ∅ [] in
  Forall (fun q => well_formed q /\ within q Scenario.city_box) (stack st) /\
  exists st', Run.passes 2 Scenario.overlapping_search st = Next st' /\
              length (stack st') = 3 /\
              Forall (fun q => well_formed q /\ within q Scenario.city_box) (stack st').
Proof.
  assert (H0 : Forall (fun q => well_formed q /\ within q Scenario.city_box)
                 (stack (mk_state [Scenario.city_box] ∅ []))).
  { apply List.Forall_cons; [|apply List.Forall_nil].
    unfold well_formed, within, Scenario.city_box. simpl. repeat split; lra. }
  split; [exact H0|].
  eexists. split; [reflexivity|]. split; [reflexivity|].
  exact (stack_stays_within_root Scenario.overlapping_search Scenario.city_box 2
           (mk_state [Scenario.city_box] ∅ []) _ H0 eq_refl).
Defined.

Lemma calls_of_snoc i log j box :
  calls_of i (log ++ [request_for j box])
  = calls_of i log + (if decide (j = i) then 1 else 0).
Proof.
  rewrite calls_of_app. f_equal. unfold calls_of. rewrite filter_cons.
  cbn [request_for insights]. destruct (decide (j = i)); reflexivity.
Qed.

Lemma passes_accounting svc n st st' :
  Run.passes n svc st = Next st' ->
  ids st ⊆ ids st' /\
  length (stack st) <= length (stack st') + n /\
  calls_of INSIGHT_COUNT (sent st') = calls_of INSIGHT_COUNT (sent st) + n /\
  calls_of INSIGHT_PLACES (sent st') <= calls_of INSIGHT_PLACES (sent st) + n /\
  length (sent st') <= length (sent st) + 2 * n.
Proof.
  revert st. induction n as [|n IH]; intros st H; cbn [Run.passes] in H.
  - inversion H; subst. repeat split; try lia. reflexivity.
  - destruct (iteration svc st) as [st1|e] eqn:Hit; [|discriminate].
    destruct (IH st1 H) as (Hi & Hl & Hc & Hp & Hs).
    destruct (pass_shape svc st st1 Hit) as (stack1 & box & Hst & Hst1 & Hids & Hsent).
    assert (Hlen : length (stack st) <= length (stack st1) + 1).
    { rewrite Hst, length_app. cbn [length].
      destruct Hst1 as [->| ->]; [lia|]. rewrite length_app. lia. }
    split; [etransitivity; eassumption|]. split; [lia|].
    destruct Hsent as [E|E]; rewrite E in Hc, Hp, Hs.
    + rewrite calls_of_snoc in Hc, Hp. rewrite length_app in Hs.
      cbn [length] in Hs. repeat case_decide; try congruence; lia.
    + change [request_for INSIGHT_COUNT box; request_for INSIGHT_PLACES box]
        with ([request_for INSIGHT_COUNT box] ++ [request_for INSIGHT_PLACES box])
        in Hc, Hp, Hs.
      rewrite app_assoc in Hc, Hp, Hs.
      rewrite !calls_of_snoc in Hc, Hp. rewrite !length_app in Hs.
      cbn [length] in Hs. repeat case_decide; try congruence; lia.
Qed.

(** X10. When the loop ends, the stack is empty, no name that was in the
    set has been lost, and the loop has made some number n of passes, at
    least one per box that was on the stack, with exactly n count
    requests, at most n listing requests and so at most 2n requests in
    all. *)
Theorem finished_loop_accounting fuel svc st st' :
  while_stack fuel svc st = Some (Return st') ->
  stack st' = [] /\
  ids st ⊆ ids st' /\
  exists n,
    length (stack st) <= n <= fuel /\
    Run.passes n svc st = Next st' /\
    calls_of INSIGHT_COUNT (sent st') = calls_of INSIGHT_COUNT (sent st) + n /\
    calls_of INSIGHT_PLACES (sent st') <= calls_of INSIGHT_PLACES (sent st) + n /\
    length (sent st') <= length (sent st) + 2 * n.
Proof.
  intros H. destruct (while_stack_passes fuel svc st st' H) as (n & Hn & Hp & He).
  destruct (passes_accounting svc n st st' Hp) as (Hi & Hl & Hc & Hpl & Hs).
  split; [exact He|]. split; [exact Hi|]. exists n.
  rewrite He in Hl. cbn [length] in Hl. repeat split; try assumption; lia.
Qed.

Lemma finished_loop_accounting_witness :
  let st := mk_state [Scenario.city_box] ∅ [] in
  exists st',
    while_stack 9 Scenario.overlapping_search st = Some (Return st') /\
    calls_of INSIGHT_COUNT (sent st') = 9 /\
    calls_of INSIGHT_PLACES (sent st') = 2 /\
    stack st' = [].
Proof.
  eexists. split; [reflexivity|].
  split; [reflexivity|]. split; [reflexivity|].
  exact (proj1 (finished_loop_accounting 9 Scenario.overlapping_search
                  (mk_state [Scenario.city_box] ∅ []) _ eq_refl)).
Defined.

(** X11. A root box whose count is 0 ends the search after one pass:
    [collect_place_ids_for_city] returns the empty list. *)
Theorem empty_root_returns_nothing geo svc city root fuel :
  get_city_bbox geo city = Return root ->
  fst (Insights.aggregate_count_for_bbox svc root []) = Return 0%Z ->
  collect_place_ids_for_city (S fuel) geo svc city = Some (Return []).
Proof.
  intros Hgeo Hcount. unfold collect_place_ids_for_city. rewrite Hgeo.
  rewrite (while_stack_step fuel svc (mk_state [root] ∅ [])
             (mk_state [] ∅ ([] ++ [request_for INSIGHT_COUNT root]))).
  - destruct fuel; reflexivity.
  - discriminate.
  - exact (pass_count_zero svc (mk_state [root] ∅ []) [] root eq_refl Hcount).
Qed.

Lemma empty_root_returns_nothing_witness :
  get_city_bbox Scenario.one_city "x" = Return Scenario.city_box /\
  collect_place_ids_for_city 1 Scenario.one_city
    (Scenario.always (Scenario.counted "0")) "x" = Some (Return []).
Proof.
  split; [reflexivity|].
  exact (empty_root_returns_nothing Scenario.one_city
           (Scenario.always (Scenario.counted "0")) "x" Scenario.city_box 0
           eq_refl eq_refl).
Defined.

(** X12. A geocoder failure ends the search before the first pass,
    whatever the insights service: what [get_city_bbox] raises is what
    [collect_place_ids_for_city] raises, even with no pass allowed. In
    particular a city with no match (an empty list of results) gives
    [ValueError]. *)
Theorem geocoder_failure_stops_search geo city fuel svc :
  (forall e, get_city_bbox geo city = Raise e ->
             collect_place_ids_for_city fuel geo svc city = Some (Raise e)) /\
  (forall status, geo city = Response status (Some []) ->
                  ~ (400 <= status < 600)%Z ->
                  collect_place_ids_for_city fuel geo svc city = Some (Raise ValueError)).
Proof.
  assert (H1 : forall e, get_city_bbox geo city = Raise e ->
                 collect_place_ids_for_city fuel geo svc city = Some (Raise e)).
  { intros e He. unfold collect_place_ids_for_city. rewrite He. reflexivity. }
  split; [exact H1|].
  intros status Hgeo Hst. apply H1. unfold get_city_bbox. rewrite Hgeo.
  cbn [Http.request mbind result_bind].
  destruct (raise_for_status_cases status (Some (@nil (R * R * R * R))))
    as [[Hs _]|[_ ->]]; [contradiction|]. reflexivity.
Qed.

Lemma geocoder_failure_stops_search_witness :
  let geo : nominatim := fun _ => Response 200 (Some []) in
  collect_place_ids_for_city 0 geo Scenario.overlapping_search "nowhere"
  = Some (Raise ValueError).
Proof.
  refine (proj2 (geocoder_failure_stops_search
                   (fun _ => Response 200 (Some [])) "nowhere" 0
                   Scenario.overlapping_search) 200%Z eq_refl _).
  lia.
Defined.

(** ** Services that keep failing *)

Section CountAlwaysFails.

Variable svc : insights_service.
Hypothesis count_fails :
  forall log box, fst (Insights.aggregate_count_for_bbox svc box log) = Raise HTTPError.

Lemma failing_pass st :
  0 < length (stack st) <= 2051 ->
  exists st', iteration svc st = Next st' /\
              0 < length (stack st') <= 2051 /\ ids st' = ids st.
Proof.
  intros Hlen.
  destruct (stack_last (stack st)) as (stack1 & box & Hs).
  { destruct (stack st); [simpl in Hlen; lia | discriminate]. }
  rewrite Hs, length_app in Hlen. cbn [length] in Hlen.
  eexists. split.
  - exact (pass_count_http_error svc st stack1 box Hs (count_fails _ _)).
  - cbn [stack ids]. split; [|reflexivity].
    destruct (Nat.ltb_spec (length stack1) 2048).
    + rewrite length_app. cbn [split_bbox length]. lia.
    + lia.
Qed.

Lemma failing_passes n st :
  0 < length (stack st) <= 2051 ->
  exists st', Run.passes n svc st = Next st' /\
              0 < length (stack st') <= 2051 /\ ids st' = ids st.
Proof.
  revert st. induction n as [|n IH]; intros st Hlen.
  - exists st. auto.
  - destruct (failing_pass st Hlen) as (st1 & Hit & Hlen1 & Hids1).
    destruct (IH st1 Hlen1) as (st' & Hp & Hlen' & Hids').
    exists st'. cbn [Run.passes]. rewrite Hit. split; [exact Hp|].
    split; [exact Hlen' | congruence].
Qed.

Lemma failing_loop fuel st :
  0 < length (stack st) <= 2051 -> while_stack fuel svc st = None.
Proof.
  revert st. induction fuel as [|fuel IH]; intros st Hlen.
  - cbn [while_stack]. destruct (stack st); [simpl in Hlen; lia | reflexivity].
  - destruct (failing_pass st Hlen) as (st1 & Hit & Hlen1 & _).
    rewrite (while_stack_step fuel svc st st1); [exact (IH st1 Hlen1) | | exact Hit].
    destruct (stack st); [simpl in Hlen; lia | discriminate].
Qed.

End CountAlwaysFails.

(** X13. With a service whose count call raises [HTTPError] every time,
    the loop never ends, whatever bound is put on its passes: each pass
    leaves the stack non-empty. The test against 2048 keeps the stack at
    2051 boxes or fewer, and no name is ever collected. *)
Theorem persistent_count_failure_never_ends svc st :
  (forall log box,
     fst (Insights.aggregate_count_for_bbox svc box log) = Raise HTTPError) ->
  0 < length (stack st) <= 2051 ->
  (forall fuel, while_stack fuel svc st = None) /\
  (forall n, exists st',
     Run.passes n svc st = Next st' /\
     0 < length (stack st') <= 2051 /\ ids st' = ids st).
Proof.
  intros Hfail Hlen. split.
  - intros fuel. exact (failing_loop svc Hfail fuel st Hlen).
  - intros n. exact (failing_passes svc Hfail n st Hlen).
Qed.

Lemma persistent_count_failure_never_ends_witness :
  (forall log box,
     fst (Insights.aggregate_count_for_bbox (Scenario.always Scenario.failed) box log)
     = Raise HTTPError) /\
  while_stack 50 (Scenario.always Scenario.failed) (mk_state [Scenario.city_box] ∅ [])
  = None.
Proof.
  assert (Hfail : forall log box,
     fst (Insights.aggregate_count_for_bbox (Scenario.always Scenario.failed) box log)
     = Raise HTTPError).
  { intros log box. rewrite aggregate_count_eq. reflexivity. }
  split; [exact Hfail|].
  refine (proj1 (persistent_count_failure_never_ends
                   (Scenario.always Scenario.failed)
                   (mk_state [Scenario.city_box] ∅ []) Hfail _) 50).
  simpl. lia.
Defined.

Section ListingAlwaysFails.

Variable svc : insights_service.
Hypothesis count_small :
  forall log box, exists cnt,
    fst (Insights.aggregate_count_for_bbox svc box log) = Return cnt /\
    cnt <> 0%Z /\ (cnt <= COUNT_LIMIT)%Z.
Hypothesis listing_fails :
  forall log box, fst (Insights.aggregate_places_for_bbox svc box log) = Raise HTTPError.

Lemma growing_pass st :
  stack st <> [] ->
  exists st', iteration svc st = Next st' /\
              length (stack st') = length (stack st) + 3 /\ ids st' = ids st.
Proof.
  intros Hne. destruct (stack_last (stack st) Hne) as (stack1 & box & Hs).
  destruct (count_small (sent st) box) as (cnt & Hc & Hz & Hcap).
  eexists. split.
  - exact (pass_listing_http_error svc st stack1 box Hs cnt Hc Hz Hcap
             (listing_fails _ _)).
  - cbn [stack ids]. split; [|reflexivity].
    rewrite Hs, !length_app. cbn [split_bbox length]. lia.
Qed.

Lemma growing_passes n st :
  stack st <> [] ->
  exists st', Run.passes n svc st = Next st' /\
              length (stack st') = length (stack st) + 3 * n /\ ids st' = ids st.
Proof.
  revert st. induction n as [|n IH]; intros st Hne.
  - exists st. split; [reflexivity|]. split; [lia | reflexivity].
  - destruct (growing_pass st Hne) as (st1 & Hit & Hlen1 & Hids1).
    assert (Hne1 : stack st1 <> []).
    { destruct (stack st1); [simpl in Hlen1; lia | discriminate]. }
    destruct (IH st1 Hne1) as (st' & Hp & Hlen' & Hids').
    exists st'. cbn [Run.passes]. rewrite Hit. split; [exact Hp|].
    split; [lia | congruence].
Qed.

Lemma growing_loop fuel st : stack st <> [] -> while_stack fuel svc st = None.
Proof.
  revert st. induction fuel as [|fuel IH]; intros st Hne.
  - cbn [while_stack]. destruct (stack st); [congruence | reflexivity].
  - destruct (growing_pass st Hne) as (st1 & Hit & Hlen1 & _).
    rewrite (while_stack_step fuel svc st st1 Hne Hit). apply IH.
    destruct (stack st1); [simpl in Hlen1; lia | discriminate].
Qed.

End ListingAlwaysFails.

(** X14. With a service whose counts are always between 1 and
    [COUNT_LIMIT] and whose listing call raises [HTTPError] every time,
    each pass adds three boxes to the stack: after n passes the stack is
    3n boxes longer, with no bound (the test against 2048 is not on this
    path), and the loop never ends. *)
Theorem persistent_listing_failure_grows_stack svc st :
  (forall log box, exists cnt,
     fst (Insights.aggregate_count_for_bbox svc box log) = Return cnt /\
     cnt <> 0%Z /\ (cnt <= COUNT_LIMIT)%Z) ->
  (forall log box,
     fst (Insights.aggregate_places_for_bbox svc box log) = Raise HTTPError) ->
  stack st <> [] ->
  (forall n, exists st',
     Run.passes n svc st = Next st' /\
     length (stack st') = length (stack st) + 3 * n /\ ids st' = ids st) /\
  (forall fuel, while_stack fuel svc st = None).
Proof.
  intros Hc Hl Hne. split.
  - intros n. exact (growing_passes svc Hc Hl n st Hne).
  - intros fuel. exact (growing_loop svc Hc Hl fuel st Hne).
Qed.

Lemma persistent_listing_failure_grows_stack_witness :
  let st := mk_state [Scenario.city_box] ∅ [] in
  exists st', Run.passes 683 Run.listing_always_fails st = Next st' /\
              length (stack st') = 2050.
Proof.
  assert (Hc : forall log box, exists cnt,
     fst (Insights.aggregate_count_for_bbox Run.listing_always_fails box log)
     = Return cnt /\ cnt <> 0%Z /\ (cnt <= COUNT_LIMIT)%Z).
  { intros log box. exists 1%Z. rewrite aggregate_count_eq.
    split; [reflexivity|]. unfold COUNT_LIMIT. lia. }
  assert (Hl : forall log box,
     fst (Insights.aggregate_places_for_bbox Run.listing_always_fails box log)
     = Raise HTTPError).
  { intros log box. rewrite aggregate_places_eq. reflexivity. }
  destruct (proj1 (persistent_listing_failure_grows_stack
                     Run.listing_always_fails
                     (mk_state [Scenario.city_box] ∅ []) Hc Hl
                     ltac:(discriminate)) 683) as (st' & Hp & Hlen & _).
  exists st'. split; [exact Hp | exact Hlen].
Defined.

(** X15. The quadrants are explored last-pushed first: when the four
    quadrants of a box are on top of the stack, the next pass sends the
    count request for the south-east one and leaves the other three, NW,
    NE and SW, below whatever it pushes. *)
Theorem quadrants_explored_depth_first svc st st' stack1 box :
  stack st = stack1 ++ split_bbox box ->
  iteration svc st = Next st' ->
  let nw := mk_bbox (top box) (mid_lat box) (left box) (mid_lng box) in
  let ne := mk_bbox (top box) (mid_lat box) (mid_lng box) (right box) in
  let sw := mk_bbox (mid_lat box) (bottom box) (left box) (mid_lng box) in
  let se := mk_bbox (mid_lat box) (bottom box) (mid_lng box) (right box) in
  (stack st' = stack1 ++ [nw; ne; sw] \/
   stack st' = (stack1 ++ [nw; ne; sw]) ++ split_bbox se) /\
  (sent st' = sent st ++ [request_for INSIGHT_COUNT se] \/
   sent st' = sent st ++ [request_for INSIGHT_COUNT se;
                          request_for INSIGHT_PLACES se]).
Proof.
  intros Hs Hit nw ne sw se.
  destruct (pass_shape svc st st' Hit) as (stack2 & b & Hs2 & Hst & _ & Hsent).
  assert (E : stack1 ++ split_bbox box = (stack1 ++ [nw; ne; sw]) ++ [se]).
  { rewrite <- app_assoc. reflexivity. }
  rewrite Hs, E in Hs2. apply app_inj_tail in Hs2 as [<- <-].
  split; assumption.
Qed.

Lemma quadrants_explored_depth_first_witness :
  let st := mk_state (split_bbox Scenario.city_box) ∅ [] in
  exists st', iteration (Scenario.always (Scenario.counted "0")) st = Next st' /\
              length (stack st') = 3 /\ length (sent st') = 1.
Proof.
  eexists. split; [reflexivity|].
  destruct (quadrants_explored_depth_first
              (Scenario.always (Scenario.counted "0"))
              (mk_state (split_bbox Scenario.city_box) ∅ []) _ [] Scenario.city_box
              eq_refl eq_refl) as [_ _].
  split; reflexivity.
Defined.

(** ** Normalized records *)

Lemma get_existsb (m : dict) (k : string) :
  existsb (fun kv => String.eqb (fst kv) k) m = true -> exists v, Py.get m k = Some v.
Proof.
  induction m as [|[k' v] m IH]; cbn [existsb Py.get fst]; [discriminate|].
  destruct (String.eqb k' k); [eauto | exact IH].
Qed.

Lemma get_existsb_false (m : dict) (k : string) :
  existsb (fun kv => String.eqb (fst kv) k) m = false -> Py.get m k = None.
Proof.
  induction m as [|[k' v] m IH]; cbn [existsb Py.get fst]; [reflexivity|].
  destruct (String.eqb k' k); [discriminate | exact IH].
Qed.

Lemma is_in_raises k v e : Py.is_in k v = Raise e -> e = TypeError.
Proof. destruct v; cbn [Py.is_in]; intros H; inversion H; reflexivity. Qed.

Lemma index_raises_on_object m k e :
  Py.index (JObj m) k = Raise e -> Py.get m k = None.
Proof.
  cbn [Py.index]. destruct (Py.get m k); [discriminate | reflexivity].
Qed.

Lemma gps_of_object data m :
  Py.get data "location" = Some (JObj m) ->
  gps_of data
  = Return match Py.get m "latitude", Py.get m "longitude" with
           | Some lat, Some lng =>
               JObj [("latitude"%string, lat); ("longitude"%string, lng)]
           | _, _ => JNull
           end.
Proof.
  intros Hloc. unfold gps_of. rewrite Hloc. cbn [default from_option Datatypes.id].
  destruct m as [|kv m]; [reflexivity|]. cbn [Py.truthy Py.is_in mbind result_bind].
  destruct (existsb _ (kv :: m)) eqn:Hlat.
  - apply get_existsb in Hlat as [lat Hlat].
    destruct (existsb (fun kv0 => String.eqb (fst kv0) "longitude") (kv :: m)) eqn:Hlng.
    + apply get_existsb in Hlng as [lng Hlng].
      cbn [Py.index]. rewrite Hlat, Hlng. reflexivity.
    + apply get_existsb_false in Hlng. rewrite Hlat, Hlng. reflexivity.
  - apply get_existsb_false in Hlat. rewrite Hlat. reflexivity.
Qed.

Lemma gps_of_raises data e : gps_of data = Raise e -> e = TypeError.
Proof.
  unfold gps_of. destruct (default (JObj []) (Py.get data "location")) as
    [|b|q|s|items|m] eqn:Hloc; cbn [Py.truthy].
  - discriminate.
  - destruct b; [|discriminate]. intros H. inversion H. reflexivity.
  - destruct (negb _); [|discriminate]. intros H. inversion H. reflexivity.
  - destruct (negb _); [|discriminate]. cbn [Py.is_in mbind result_bind].
    destruct (Py.contains "latitude" s); [|discriminate].
    destruct (Py.contains "longitude" s); [|discriminate].
    intros H. inversion H. reflexivity.
  - destruct items; [discriminate|]. cbn [Py.is_in mbind result_bind].
    destruct (existsb _ _); [|discriminate].
    destruct (existsb _ _); [|discriminate].
    intros H. inversion H. reflexivity.
  - destruct m as [|kv m]; [discriminate|]. cbn [Py.is_in mbind result_bind].
    destruct (existsb _ (kv :: m)) eqn:Hlat; [|discriminate].
    destruct (existsb (fun kv0 => String.eqb (fst kv0) "longitude") (kv :: m)) eqn:Hlng;
      [|discriminate].
    apply get_existsb in Hlat as [lat Hlat]. apply get_existsb in Hlng as [lng Hlng].
    cbn [Py.index]. rewrite Hlat, Hlng. discriminate.
Qed.

(** X16. [normalize], the record that [hydrate_places] builds, can only
    raise [TypeError], and does not raise when ["location"] is absent or
    is an object: the record then has ["gps_coordinates"] with exactly
    the latitude and the longitude of the location when both are there,
    and null otherwise; its ["id"] and ["resourceName"] are the record's
    ["id"] and ["name"], null when absent, and its ["types"] is the empty
    list when absent. *)
Theorem normalize_outcomes (data : dict) :
  (forall e, normalize data = Raise e -> e = TypeError) /\
  (Py.get data "location" = None \/ (exists m, Py.get data "location" = Some (JObj m)) ->
   exists p,
     normalize data = Return p /\
     Hydration.gps_coordinates p
     = match Py.get data "location" with
       | Some (JObj m) =>
           match Py.get m "latitude", Py.get m "longitude" with
           | Some lat, Some lng =>
               JObj [("latitude"%string, lat); ("longitude"%string, lng)]
           | _, _ => JNull
           end
       | _ => JNull
       end /\
     Hydration.id p = default JNull (Py.get data "id") /\
     Hydration.resourceName p = default JNull (Py.get data "name") /\
     Hydration.types p = default (JArr []) (Py.get data "types")).
Proof.
  split.
  - intros e. unfold normalize. destruct (gps_of data) as [gps|e'] eqn:Hg.
    + discriminate.
    + cbn [mbind result_bind]. intros H. inversion H; subst.
      exact (gps_of_raises data e Hg).
  - intros [Hloc|[m Hloc]].
    + assert (Hg : gps_of data = Return JNull).
      { unfold gps_of. rewrite Hloc. reflexivity. }
      unfold normalize. rewrite Hg, Hloc. eexists. split; [reflexivity|].
      cbn. auto.
    + unfold normalize. rewrite (gps_of_object data m Hloc), Hloc.
      eexists. split; [reflexivity|]. cbn. auto.
Qed.

Lemma normalize_outcomes_witness :
  let data : dict :=
    [("id"%string, JStr "a");
     ("location"%string, JObj [("latitude"%string, JNum 1); ("longitude"%string, JNum 2)])] in
  exists p, normalize data = Return p /\
            Hydration.gps_coordinates p
            = JObj [("latitude"%string, JNum 1); ("longitude"%string, JNum 2)] /\
            Hydration.name p = JNull.
Proof.
  destruct (proj2 (normalize_outcomes
                     [("id"%string, JStr "a");
                      ("location"%string,
                       JObj [("latitude"%string, JNum 1); ("longitude"%string, JNum 2)])])
              (or_intror (ex_intro _ _ eq_refl))) as (p & Hp & Hgps & _).
  exists p. split; [exact Hp|]. split; [exact Hgps|].
  inversion Hp. reflexivity.
Defined.

(** ** The order in which lookups finish *)

Lemma settle_skips n :
  Futures.settle (Return None, n) = Return None /\
  Futures.settle (Return (Some []), n) = Return None.
Proof. split; reflexivity. Qed.

Lemma settle_record kv d n :
  Futures.settle (Return (Some (kv :: d)), n)
  = (p ← normalize (kv :: d); Return (Some p)).
Proof. reflexivity. Qed.

Lemma record_of_cons f futs :
  omap Futures.record_of (f :: futs)
  = match Futures.settle f with
    | Return (Some p) => p :: omap Futures.record_of futs
    | _ => omap Futures.record_of futs
    end.
Proof.
  cbn [omap list_omap]. unfold Futures.record_of at 1.
  destruct (Futures.settle f) as [[p|]|e]; reflexivity.
Qed.

Lemma collect_cons f futs out0 :
  collect (f :: futs) out0
  = match Futures.settle f with
    | Return (Some p) => collect futs (out0 ++ [p])
    | Return None => collect futs out0
    | Raise e => Raise e
    end.
Proof.
  destruct f as [[[[|kv d]|]|e] n]; try reflexivity.
  rewrite settle_record. cbn [collect mbind result_bind].
  destruct (normalize (kv :: d)); reflexivity.
Qed.

Lemma collect_settle futs out0 :
  match collect futs out0 with
  | Return out =>
      Forall (fun f => exists r, Futures.settle f = Return r) futs /\
      out = out0 ++ omap Futures.record_of futs
  | Raise _ => ~ Forall (fun f => exists r, Futures.settle f = Return r) futs
  end.
Proof.
  revert out0. induction futs as [|f futs IH]; intros out0.
  - cbn [collect omap]. rewrite app_nil_r. split; [constructor | reflexivity].
  - rewrite collect_cons, record_of_cons.
    destruct (Futures.settle f) as [[p|]|e] eqn:Hf.
    + specialize (IH (out0 ++ [p])). destruct (collect futs (out0 ++ [p])).
      * destruct IH as [HF ->]. split.
        -- constructor; [eauto | exact HF].
        -- rewrite <- app_assoc. reflexivity.
      * intros HF. apply Forall_cons in HF as [_ HF]. exact (IH HF).
    + specialize (IH out0). destruct (collect futs out0).
      * destruct IH as [HF ->]. split; [|reflexivity].
        constructor; [eauto | exact HF].
      * intros HF. apply Forall_cons in HF as [_ HF]. exact (IH HF).
    + intros HF. apply Forall_cons in HF as [[r Hr] _]. congruence.
Qed.

(** X17. The order in which the lookups finish changes neither whether
    [hydrate_places] returns nor, up to their order, the records it
    returns: for two schedules of the same pool, if it returns under one
    it returns under the other, with the same records in some order; and
    if it raises under one it raises under the other. *)
Theorem completion_order_permutes_output
    (order1 order2 : forall A : Type, list A -> list A)
    (svc : details_service) (names : list string) :
  (forall (A : Type) (l : list A), order1 A l ≡ₚ l) ->
  (forall (A : Type) (l : list A), order2 A l ≡ₚ l) ->
  (forall out1,
     hydrate_places order1 svc names = Return out1 ->
     exists out2, hydrate_places order2 svc names = Return out2 /\ out1 ≡ₚ out2) /\
  (forall e1,
     hydrate_places order1 svc names = Raise e1 ->
     exists e2, hydrate_places order2 svc names = Raise e2).
Proof.
  intros H1 H2. unfold hydrate_places.
  set (futs := map (fun n => (place_details svc n, n)) names).
  pose proof (collect_settle (order1 _ futs) []) as C1.
  pose proof (collect_settle (order2 _ futs) []) as C2.
  split.
  - intros out1 E1. rewrite E1 in C1. destruct C1 as [HF ->].
    destruct (collect (order2 _ futs) []) as [out2|e2].
    + destruct C2 as [_ ->]. exists (omap Futures.record_of (order2 _ futs)).
      split; [reflexivity|]. cbn [app]. rewrite H1, H2. reflexivity.
    + exfalso. apply C2. rewrite H2. rewrite H1 in HF. exact HF.
  - intros e1 E1. rewrite E1 in C1.
    destruct (collect (order2 _ futs) []) as [out2|e2]; [|eauto].
    exfalso. destruct C2 as [HF _]. apply C1. rewrite H1. rewrite H2 in HF. exact HF.
Qed.

Lemma completion_order_permutes_output_witness :
  (forall (A : Type) (l : list A), Scenario.in_order A l ≡ₚ l) /\
  (forall (A : Type) (l : list A), Scenario.reversed A l ≡ₚ l) /\
  exists out2,
    hydrate_places Scenario.reversed Scenario.details
      ["places/gone"; "places/a"]%string = Return out2 /\
    length out2 = 1.
Proof.
  assert (H1 : forall (A : Type) (l : list A), Scenario.in_order A l ≡ₚ l)
    by (intros A l; reflexivity).
  assert (H2 : forall (A : Type) (l : list A), Scenario.reversed A l ≡ₚ l).
  { intros A l. unfold Scenario.reversed. symmetry. apply Permutation_rev. }
  split; [exact H1|]. split; [exact H2|].
  destruct (proj1 (completion_order_permutes_output
                     Scenario.in_order Scenario.reversed Scenario.details
                     ["places/gone"; "places/a"]%string H1 H2) _ eq_refl)
    as (out2 & Hout & Hperm).
  exists out2. split; [exact Hout|].
  rewrite <- (Permutation_length Hperm). reflexivity.
Defined.

(** ** Strings, slugs and paths *)

Lemma ascii_cases (P : ascii -> Prop) :
  (forall b0 b1 b2 b3 b4 b5 b6 b7, P (Ascii b0 b1 b2 b3 b4 b5 b6 b7)) -> forall c, P c.
Proof. intros H [b0 b1 b2 b3 b4 b5 b6 b7]. apply H. Qed.

(** Settle a fact about one character by going through all of them. *)
Ltac by_all_chars :=
  let c := fresh "c" in
  intros c; pattern c; apply ascii_cases; clear c;
  intros [] [] [] [] [] [] [] []; vm_compute; try reflexivity; try discriminate;
  intros; try discriminate; try reflexivity.

Lemma lower_char_not_upper : forall c, Str.is_upper (Str.lower_char c) = false.
Proof. by_all_chars. Qed.

Lemma lower_char_space : forall c, Str.is_space (Str.lower_char c) = Str.is_space c.
Proof. by_all_chars. Qed.

Lemma not_upper_lower_char : forall c, Str.is_upper c = false -> Str.lower_char c = c.
Proof. intros c H. unfold Str.lower_char. rewrite H. reflexivity. Qed.

Lemma lower_char_sep : forall c, Ascii.eqb (Str.lower_char c) "/" = Ascii.eqb c "/".
Proof. by_all_chars. Qed.

Lemma space_is_space : forall c, Ascii.eqb c " " = true -> Str.is_space c = true.
Proof. intros c H. apply Ascii.eqb_eq in H. subst. reflexivity. Qed.

(** The character that [slugify_city] makes of a character. *)
Local Abbreviation slug_char :=
  (fun c : ascii => if Ascii.eqb (Str.lower_char c) " " then "_"%char else Str.lower_char c).

Lemma slug_char_facts : forall c,
  Ascii.eqb (slug_char c) " " = false /\
  Str.is_upper (slug_char c) = false /\
  (Str.is_space c = false -> Str.is_space (slug_char c) = false) /\
  Ascii.eqb (slug_char c) "/" = Ascii.eqb c "/".
Proof. by_all_chars; repeat split; intros; try reflexivity; try discriminate. Qed.

Lemma slugify_chars (s : string) :
  Str.replace " " "_" (Str.lower s) = Str.map slug_char s.
Proof.
  induction s as [|c s IH]; cbn [Str.lower Str.replace Str.map]; [|rewrite IH];
    reflexivity.
Qed.

Lemma length_lstrip (s : string) : String.length (Str.lstrip s) <= String.length s.
Proof.
  induction s as [|c s IH]; cbn [Str.lstrip String.length]; [lia|].
  destruct (Str.is_space c); cbn [String.length]; lia.
Qed.

Lemma lstrip_fixed (c : ascii) (s : string) :
  Str.lstrip (String c s) = String c s -> Str.is_space c = false.
Proof.
  cbn [Str.lstrip]. destruct (Str.is_space c); [|reflexivity].
  intros H. pose proof (length_lstrip s) as Hl. rewrite H in Hl.
  cbn [String.length] in Hl. lia.
Qed.

Lemma lstrip_idem (s : string) : Str.lstrip (Str.lstrip s) = Str.lstrip s.
Proof.
  induction s as [|c s IH]; [reflexivity|]. cbn [Str.lstrip].
  destruct (Str.is_space c) eqn:E; [exact IH|]. cbn [Str.lstrip]. rewrite E. reflexivity.
Qed.

Lemma rstrip_idem (s : string) : Str.rstrip (Str.rstrip s) = Str.rstrip s.
Proof.
  induction s as [|c s IH]; [reflexivity|]. cbn [Str.rstrip].
  destruct (Str.rstrip s) as [|d r] eqn:E.
  - destruct (Str.is_space c) eqn:Ec; [reflexivity|].
    cbn [Str.rstrip]. rewrite Ec. reflexivity.
  - cbn [Str.rstrip] in *. rewrite IH. reflexivity.
Qed.

Lemma lstrip_rstrip (t : string) :
  Str.lstrip t = t -> Str.lstrip (Str.rstrip t) = Str.rstrip t.
Proof.
  destruct t as [|c t]; [reflexivity|]. intros H. apply lstrip_fixed in H.
  cbn [Str.rstrip]. destruct (Str.rstrip t); [rewrite H|];
    cbn [Str.lstrip]; rewrite H; reflexivity.
Qed.

Lemma strip_fixed (s : string) :
  Str.lstrip (Str.strip s) = Str.strip s /\ Str.rstrip (Str.strip s) = Str.strip s.
Proof.
  unfold Str.strip. split.
  - apply lstrip_rstrip, lstrip_idem.
  - apply rstrip_idem.
Qed.

Section CharMap.

Variable f : ascii -> ascii.
Hypothesis f_keeps : forall c, Str.is_space c = false -> Str.is_space (f c) = false.

Lemma lstrip_map (s : string) :
  Str.lstrip s = s -> Str.lstrip (Str.map f s) = Str.map f s.
Proof.
  destruct s as [|c s]; [reflexivity|]. intros H. apply lstrip_fixed in H.
  cbn [Str.map Str.lstrip]. rewrite (f_keeps c H). reflexivity.
Qed.

Lemma rstrip_map (s : string) :
  Str.rstrip s = s -> Str.rstrip (Str.map f s) = Str.map f s.
Proof.
  induction s as [|c s IH]; [reflexivity|]. cbn [Str.rstrip Str.map].
  destruct (Str.rstrip s) as [|d r] eqn:E.
  - destruct (Str.is_space c) eqn:Ec; [discriminate|].
    intros H. inversion H; subst. cbn [Str.map Str.rstrip].
    rewrite (f_keeps c Ec). reflexivity.
  - intros H. injection H as Hs. rewrite (IH Hs).
    rewrite <- Hs. reflexivity.
Qed.

End CharMap.

Lemma map_map (f g : ascii -> ascii) (s : string) :
  Str.map f (Str.map g s) = Str.map (fun c => f (g c)) s.
Proof. induction s as [|c s IH]; cbn [Str.map]; [|rewrite IH]; reflexivity. Qed.

Lemma map_ext (f g : ascii -> ascii) (s : string) :
  (forall c, f c = g c) -> Str.map f s = Str.map g s.
Proof.
  intros H. induction s as [|c s IH]; cbn [Str.map]; [|rewrite IH, H]; reflexivity.
Qed.

Lemma slug_char_idem : forall c, slug_char (slug_char c) = slug_char c.
Proof. by_all_chars. Qed.

Lemma slugify_city_eq (city : string) :
  slugify_city city = Str.map slug_char (Str.strip city).
Proof. unfold slugify_city. apply slugify_chars. Qed.

(** X18. The slug of a city name has no space and no upper-case letter,
    has no white space at either end, and is its own slug. (On ASCII
    names, where the model's [strip] and [lower] are Python's.) *)
Theorem slugify_city_is_a_slug (city : string) :
  Str.is_ascii city = true ->
  Str.has " " (slugify_city city) = false /\
  Str.has_upper (slugify_city city) = false /\
  Str.strip (slugify_city city) = slugify_city city /\
  slugify_city (slugify_city city) = slugify_city city.
Proof.
  intros _. rewrite !slugify_city_eq.
  assert (Hstrip : Str.strip (Str.map slug_char (Str.strip city))
                   = Str.map slug_char (Str.strip city)).
  { destruct (strip_fixed city) as [Hl Hr]. unfold Str.strip at 1.
    rewrite (lstrip_map slug_char (fun c => proj1 (proj2 (proj2 (slug_char_facts c)))) _ Hl).
    apply (rstrip_map slug_char (fun c => proj1 (proj2 (proj2 (slug_char_facts c)))) _ Hr). }
  split; [|split; [|split]].
  - clear Hstrip. induction (Str.strip city) as [|c s IH]; [reflexivity|].
    cbn [Str.map Str.has]. rewrite (proj1 (slug_char_facts c)). exact IH.
  - clear Hstrip. induction (Str.strip city) as [|c s IH]; [reflexivity|].
    cbn [Str.map Str.has_upper]. rewrite (proj1 (proj2 (slug_char_facts c))). exact IH.
  - exact Hstrip.
  - rewrite Hstrip, map_map. apply map_ext. intros c. apply slug_char_idem.
Qed.

Lemma slugify_city_is_a_slug_witness :
  Str.is_ascii "  San Diego " = true /\
  slugify_city "  San Diego " = "san_diego"%string /\
  slugify_city (slugify_city "  San Diego ") = slugify_city "  San Diego ".
Proof.
  split; [reflexivity|]. split; [reflexivity|].
  exact (proj2 (proj2 (proj2 (slugify_city_is_a_slug "  San Diego " eq_refl)))).
Defined.

Lemma append_sep (a b : string) :
  Path.starts_with_sep (String.append a b)
  = match a with
    | EmptyString => Path.starts_with_sep b
    | _ => Path.starts_with_sep a
    end.
Proof. destruct a as [|c a]; reflexivity. Qed.

Lemma starts_with_sep_eqb : forall c, forall s : string,
  Path.starts_with_sep (String c s) = Ascii.eqb c "/".
Proof. by_all_chars. Qed.

Lemma slugify_city_sep (city : string) :
  Path.starts_with_sep (String.append (slugify_city city) ".json")
  = Path.starts_with_sep (Str.strip city).
Proof.
  rewrite slugify_city_eq, append_sep.
  destruct (Str.strip city) as [|c s]; [reflexivity|].
  cbn [Str.map]. rewrite !starts_with_sep_eqb.
  exact (proj2 (proj2 (proj2 (slug_char_facts c)))).
Qed.

(** X19. Where [search] saves its file, for an ASCII city name. The
    path is [OUTPUT_DIR] followed by something only when the city name,
    stripped, does not start with a slash; when it does, [os.path.join]
    drops [OUTPUT_DIR] and the path is the slug of the city followed by
    [.json]. *)
Theorem out_path_and_output_dir (cfg : Api.config) (city : string) :
  Str.is_ascii city = true ->
  (Path.starts_with_sep (Str.strip city) = false ->
   exists rest, Api.out_path cfg city = String.append (Api.OUTPUT_DIR cfg) rest) /\
  (Path.starts_with_sep (Str.strip city) = true ->
   Api.out_path cfg city = String.append (slugify_city city) ".json").
Proof.
  intros _. unfold Api.out_path, Path.join. rewrite slugify_city_sep. split; intros ->.
  - destruct (String.eqb (Api.OUTPUT_DIR cfg) "" || Path.ends_with_sep (Api.OUTPUT_DIR cfg));
      eexists; reflexivity.
  - reflexivity.
Qed.

Lemma out_path_and_output_dir_witness :
  let cfg := Api.mk_config "key" "data" in
  Api.out_path cfg " San Diego" = "data/san_diego.json"%string /\
  Api.out_path cfg "/tmp/x" = "/tmp/x.json"%string.
Proof.
  split.
  - destruct (proj1 (out_path_and_output_dir (Api.mk_config "key" "data") " San Diego"
                       eq_refl) eq_refl) as [rest _]. reflexivity.
  - exact (proj2 (out_path_and_output_dir (Api.mk_config "key" "data") "/tmp/x" eq_refl)
             eq_refl).
Defined.

(** ** The request handlers *)



(** X21. The answers of [search], for ASCII arguments. When it answers,
    the status is 500
    (no API key), 400 (no city) or 200. A 200 answer under
    [count_only=true], in any letter case, reports the number of
    collected names and 0.02 times that number, and no file is written. A
    200 answer otherwise means hydration returned: the file written is
    the payload of the answer, at [out_path] of the city, and
    [totalHydrated] and [totalPlaces] are both the number of places in
    it, which is at most the number of collected names. *)
Theorem search_answers (cfg : Api.config) (w : Api.world)
    (city_arg count_only_arg : option string) (r : Api.reply) :
  Str.is_ascii (Api.arg city_arg) = true ->
  Str.is_ascii (Api.arg count_only_arg) = true ->
  (forall (A : Type) (l : list A), Api.as_completed w A l ≡ₚ l) ->
  Api.search cfg w city_arg count_only_arg = Some (Api.Replied r) ->
  let city := Str.strip (Api.arg city_arg) in
  (Api.status r = 500%Z /\ Api.GOOGLE_API_KEY cfg = ""%string /\ Api.written r = None) \/
  (Api.status r = 400%Z /\ city = ""%string /\ Api.written r = None) \/
  (exists names,
     collect_place_ids_for_city (Api.fuel w) (Api.geo w) (Api.insights_svc w) city
     = Some (Return names) /\
     Api.status r = 200%Z /\
     ((Str.lower (Api.arg count_only_arg) = "true"%string /\
       Api.json r = Api.CountOnly (Api.elapsed w) (length names)
                                  (INR (length names) * 0.02)%R /\
       Api.written r = None) \/
      (Str.lower (Api.arg count_only_arg) <> "true"%string /\
       exists places,
         hydrate_places (Api.as_completed w) (Api.details_svc w) names = Return places /\
         let data := Api.mk_payload city (Api.now w) (length places) places in
         Api.json r = Api.Saved (Api.elapsed w) (Api.out_path cfg city)
                                (length places) data /\
         Api.written r = Some (Api.out_path cfg city, data) /\
         Api.writable w (Api.out_path cfg city) = true /\
         length places <= length names))).
Proof.
  intros _ _ Hperm. unfold Api.search.
  destruct (String.eqb_spec (Api.GOOGLE_API_KEY cfg) "") as [Hkey|Hkey].
  { intros H. cbv zeta. inversion H; subst. left. auto. }
  destruct (String.eqb_spec (Str.strip (Api.arg city_arg)) "") as [Hcity|Hcity].
  { intros H. cbv zeta. inversion H; subst. right. left. auto. }
  destruct (collect_place_ids_for_city _ _ _ _) as [[names|e]|] eqn:Hc;
    try discriminate.
  destruct (String.eqb_spec (Str.lower (Api.arg count_only_arg)) "true") as [Hco|Hco].
  { intros H. cbv zeta. inversion H; subst. right. right. exists names.
    split; [reflexivity|]. split; [reflexivity|]. left. auto. }
  destruct (hydrate_places _ _ names) as [places|e] eqn:Hh; try discriminate.
  destruct (Api.writable w _) eqn:Hw; try discriminate.
  intros H. cbv zeta. inversion H; subst. right. right. exists names.
  split; [reflexivity|]. split; [reflexivity|]. right. split; [exact Hco|].
  exists places. split; [exact Hh|]. cbn [Api.json Api.written].
  split; [reflexivity|]. split; [reflexivity|]. split; [first [exact Hw | reflexivity]|].
  destruct (hydrate_places_returns _ Hperm _ _ _ Hh) as (kept & Hk & HF & _).
  rewrite <- (Forall2_length _ _ _ HF), Hk. apply length_filter.
Qed.

Lemma search_answers_witness :
  let cfg := Api.mk_config "key" "data" in
  let w := Api.mk_world Scenario.one_city Scenario.overlapping_search Scenario.details
             Scenario.in_order 9 (fun _ => true) 0%R 0%Z in
  let r := Api.mk_reply 200 (Api.CountOnly 0%R 2 (INR 2 * 0.02)%R) None in
  Str.is_ascii " x " = true /\ Str.is_ascii "TRUE" = true /\
  (forall (A : Type) (l : list A), Api.as_completed w A l ≡ₚ l) /\
  Api.search cfg w (Some " x "%string) (Some "TRUE"%string) = Some (Api.Replied r) /\
  (Api.status r = 500%Z \/ Api.status r = 400%Z \/ Api.status r = 200%Z).
Proof.
  assert (Hperm : forall (A : Type) (l : list A), Scenario.in_order A l ≡ₚ l)
    by (intros A l; reflexivity).
  assert (E : Api.search (Api.mk_config "key" "data")
              (Api.mk_world Scenario.one_city Scenario.overlapping_search Scenario.details
                 Scenario.in_order 9 (fun _ => true) 0%R 0%Z)
              (Some " x "%string) (Some "TRUE"%string)
              = Some (Api.Replied (Api.mk_reply 200 (Api.CountOnly 0%R 2 (INR 2 * 0.02)%R) None)))
    by reflexivity.
  split; [reflexivity|]. split; [reflexivity|].
  split; [exact Hperm|]. split; [exact E|].
  destruct (search_answers (Api.mk_config "key" "data")
              (Api.mk_world Scenario.one_city Scenario.overlapping_search Scenario.details
                 Scenario.in_order 9 (fun _ => true) 0%R 0%Z)
              (Some " x "%string) (Some "TRUE"%string) _ eq_refl eq_refl Hperm E)
    as [(H & _)|[(H & _)|(names & _ & H & _)]]; auto.
Defined.


